(** * realm-profiler: a shallow embedding of [profiler.go]

    The development follows the layout of the Go source:
    constants and records, the random identifier generator
    ([randomString]), the command builder ([generateCommand]), the
    command runner ([executeCommand]), the worker loop ([executeTask]),
    the CSV persister ([saveLogs]) and the two pieces of [main] that
    coordinate goroutines (the semaphore-gated spawn loop and the signal
    handler).

    Conventions.
    - Go [int] and [time.Duration] values are integers of [Z]; instants of
      the monotonic clock are nanosecond counts in [Z].
    - Go strings are byte strings, modelled by [string].
    - A Go panic is the [Panic] constructor of [result].
    - Every source of nondeterminism (the clock, the random source, the
      outcome of external commands, file-system failures, the scheduler)
      is an explicit input of the definitions. *)

From Stdlib Require Import ZArith List String Ascii Bool Lia DecimalString.
Import ListNotations.
Open Scope string_scope.
Open Scope Z_scope.

(** ** Results of code that may panic *)

Inductive result (A : Type) : Type :=
| Ok (a : A)
| Panic (msg : string).
Arguments Ok {A} a.
Arguments Panic {A} msg.

Definition bind {A B : Type} (m : result A) (k : A -> result B) : result B :=
  match m with
  | Ok a => k a
  | Panic msg => Panic msg
  end.

Notation "x <- m ;; k" := (bind m (fun x => k))
  (at level 61, m at next level, right associativity).
Notation "' p <- m ;; k" := (bind m (fun p => k))
  (at level 61, p pattern, m at next level, right associativity).

(** ** Constants (profiler.go, lines 19-26) *)

Definition gasFee : Z := 10000000.
Definition gasWanted : Z := 800000.
Definition csvFile : string := "pc_profiler.csv".
Definition MaxPackageLength : Z := 20.
Definition BalanceQuery : string :=
  "gnokey query bank/balances/g1jg8mtutu9khhfwc4nxmuhcpftf0pajdhfvsqf5".
Definition DefaultChainId : string := "dev".

(** ** Time

    [time.Time] values are read from the monotonic clock; [time.Duration]
    is a signed 64-bit nanosecond count, and [Time.Sub] saturates at its
    bounds. *)

Definition Time := Z.
Definition Duration := Z.

Definition Second : Duration := 1000000000.
Definition minDuration : Duration := - 2 ^ 63.
Definition maxDuration : Duration := 2 ^ 63 - 1.

Definition saturate (d : Z) : Duration :=
  Z.max minDuration (Z.min maxDuration d).

Definition Time_Sub (t u : Time) : Duration := saturate (t - u).
Definition Time_Add (t : Time) (d : Duration) : Time := t + d.

Record ExecutionLog : Type := mkExecutionLog {
  Timestamp : Time;
  ResponseTime : Duration
}.

(** ** The random source

    [math/rand] is a stream of draws; [raw] lists the draws and [pos] is
    the index of the next one.  [rand.Intn n] panics for [n <= 0] and
    otherwise returns a value of [[0, n)]. *)

Record Rng : Type := mkRng {
  raw : nat -> Z;
  pos : nat
}.

Definition rand_Intn (n : Z) (r : Rng) : result (Z * Rng) :=
  if n <=? 0 then Panic "invalid argument to Intn"
  else Ok (raw r (pos r) mod n, mkRng (raw r) (S (pos r))).

(** ** randomString (profiler.go, lines 311-318) *)

Definition charset : string := "abcdefghijklmnopqrstuvwxyz".

Definition len (s : string) : Z := Z.of_nat (String.length s).

(** [s[i]]: indexing a string panics outside [[0, len s)]. *)
Definition index (s : string) (i : Z) : result ascii :=
  if i <? 0 then Panic "index out of range"
  else match String.get (Z.to_nat i) s with
       | Some c => Ok c
       | None => Panic "index out of range"
       end.

(** The [for i := range b] loop, run for the [n] cells of [b]. *)
Fixpoint randomString_loop (n : nat) (r : Rng) : result (string * Rng) :=
  match n with
  | O => Ok (EmptyString, r)
  | S n' =>
      '(i, r1) <- rand_Intn (len charset) r ;;
      c <- index charset i ;;
      '(s, r2) <- randomString_loop n' r1 ;;
      Ok (String c s, r2)
  end.

(** [make([]byte, length)] panics for a negative length. *)
Definition randomString (length : Z) (r : Rng) : result (string * Rng) :=
  if length <? 0 then Panic "makeslice: len out of range"
  else randomString_loop (Z.to_nat length) r.

Definition is_lower (c : ascii) : bool :=
  let n := nat_of_ascii c in (97 <=? n)%nat && (n <=? 122)%nat.

Fixpoint all_lower (s : string) : bool :=
  match s with
  | EmptyString => true
  | String c s' => is_lower c && all_lower s'
  end.

(** The letter selected by draw number [k] of the source. *)
Definition letter (draws : nat -> Z) (k : nat) : ascii :=
  match String.get (Z.to_nat (draws k mod 26)) charset with
  | Some c => c
  | None => zero
  end.

Fixpoint letters (draws : nat -> Z) (k n : nat) : string :=
  match n with
  | O => EmptyString
  | S n' => String (letter draws k) (letters draws (S k) n')
  end.

(** ** generateCommand (profiler.go, lines 235-267) *)

(** [%d] of [fmt.Sprintf]. *)
Definition fmt_d (z : Z) : string := NilZero.string_of_int (Z.to_int z).

Definition is_empty (s : string) : bool := (s =? EmptyString)%string.

(** The three [fmt.Sprintf] templates, with every [%s] and [%d] filled in. *)
Definition addpkgCommand (packageName pkgDir chainID remote keyName : string)
  : string :=
  "gnokey maketx addpkg --pkgpath 'gno.land/r/" ++ packageName
  ++ "' --pkgdir " ++ pkgDir ++ " "
  ++ "--gas-fee " ++ fmt_d gasFee ++ "ugnot --gas-wanted " ++ fmt_d gasWanted
  ++ " --broadcast "
  ++ "--chainid " ++ chainID ++ " --remote " ++ remote
  ++ " --insecure-password-stdin=true " ++ keyName.

Definition callCommand (packageName functionName chainID remote keyName : string)
  : string :=
  "gnokey maketx call --pkgpath 'gno.land/r/" ++ packageName
  ++ "' --func " ++ functionName ++ " "
  ++ "--gas-fee " ++ fmt_d gasFee ++ "ugnot --gas-wanted " ++ fmt_d gasWanted
  ++ " --broadcast "
  ++ "--chainid " ++ chainID ++ " --remote " ++ remote
  ++ " --insecure-password-stdin=true " ++ keyName.

Definition qrenderCommand (packageName remote : string) : string :=
  "gnokey query vm/qrender --data '" ++ packageName ++ ":' --remote " ++ remote.

Definition generateCommand
  (mode packageName functionName remote keyName pkgDir chainID : string)
  (r : Rng) : result (string * Rng) :=
  '(packageName, r) <-
     (if is_empty packageName then randomString MaxPackageLength r
      else Ok (packageName, r)) ;;
  let functionName :=
    if is_empty functionName then "Main" else functionName in
  if (mode =? "addpkg")%string then
    Ok (addpkgCommand packageName pkgDir chainID remote keyName, r)
  else if (mode =? "addpkg+call")%string then
    Panic "Programming error: addpkg+call should be 2 separate calls to generateCommand."
  else if (mode =? "call")%string then
    Ok (callCommand packageName functionName chainID remote keyName, r)
  else if (mode =? "balanceQuery")%string then
    Ok (BalanceQuery, r)
  else if (mode =? "qrender")%string then
    Ok (qrenderCommand packageName remote, r)
  else Panic "Invalid mode".

(** ** executeCommand (profiler.go, lines 269-292) *)

(** The [exec.Cmd] that is built: program, arguments and the bytes that
    the child process can read from its standard input before end of
    file. *)
Record Cmd : Type := mkCmd {
  Path : string;
  Args : list string;
  Stdin : string
}.

(** What [cmd.Run] does is decided by the outside world: the captured
    output streams, the error (if any) and the time the call took. *)
Record RunOutcome : Type := mkRunOutcome {
  run_stdout : string;
  run_stderr : string;
  run_err : option string;
  run_elapsed : N
}.

(** Lines written to the console, with their arguments. *)
Inductive Msg : Type :=
| MsgExecuting (cmdStr : string)
| MsgWarning (err : string)
| MsgCommandError (err : string)
| MsgStderr (text : string)
| MsgCompleted (duration : Duration)
| MsgCreateFailed (err : string)
| MsgStopping
| MsgAboutToStart.

Definition newline : string := String (ascii_of_nat 10) EmptyString.

Definition exec_Command (command password : string) : Cmd :=
  mkCmd "bash" ["-c"; command]
        (if negb (is_empty password) then password ++ newline else newline).

Definition executeCommand (command password : string) (o : RunOutcome)
  : Cmd * list Msg * (string * option string) :=
  let cmd := exec_Command command password in
  let msgs :=
    match run_err o with
    | Some e => [MsgCommandError e; MsgStderr (run_stderr o)]
    | None => []
    end in
  (cmd, msgs, (run_stdout o, run_err o)).

(** ** executeTask (profiler.go, lines 170-233) *)

(** The arguments that the loop never assigns. *)
Record Config : Type := mkConfig {
  mode : string;
  functionName : string;
  remote : string;
  keyName : string;
  pkgDir : string;
  chainID : string;
  maxQPS : Z;
  password : string
}.

(** The locals of the loop; [packageName] is the argument that line 218
    overwrites. *)
Record Worker : Type := mkWorker {
  queryCount : Z;
  lastQueryTime : Time;
  packageName : string;
  firstLoop : bool
}.

(** What a worker does, in the order it does it: it lets an operation
    through the throttle (line 185, with the start of the current
    window, the count after the increment and the last clock reading),
    it sleeps (line 182, with the start of the current window, the
    duration asked for and the time of waking), it prints, it runs a
    command, it appends a sample to the log. *)
Inductive Event : Type :=
| EvAdmit (window : Time) (count : Z) (at_time : Time)
| EvSleep (window : Time) (d : Duration) (wake : Time)
| EvPrint (m : Msg)
| EvRun (c : Cmd) (started finished : Time)
| EvAppend (x : ExecutionLog).

(** What a worker shares with its surroundings: the clock, the random
    source, the slice [*logs], and the history of what it did. *)
Record World : Type := mkWorld {
  now : Time;
  rng : Rng;
  logs : list ExecutionLog;
  trace : list Event
}.

(** The inputs of one turn of the loop.  Each [dt_] field is the time
    that passes before the clock reading it is named after. *)
Record Inputs : Type := mkInputs {
  dt_check : N;
  dt_reset : N;
  dt_until : N;
  dt_oversleep : N;
  dt_start : N;
  run1 : RunOutcome;
  run2 : RunOutcome;
  dt_since : N;
  dt_stamp : N
}.

Definition tick (dt : N) (wd : World) : World :=
  mkWorld (now wd + Z.of_N dt) (rng wd) (logs wd) (trace wd).

Definition emit (e : Event) (wd : World) : World :=
  mkWorld (now wd) (rng wd) (logs wd) (trace wd ++ [e])%list.

Definition emit_all (es : list Event) (wd : World) : World :=
  mkWorld (now wd) (rng wd) (logs wd) (trace wd ++ es)%list.

Definition set_rng (r : Rng) (wd : World) : World :=
  mkWorld (now wd) r (logs wd) (trace wd).

(** [time.Sleep d] returns at once when [d <= 0] and otherwise after at
    least [d]. *)
Definition time_Sleep (d : Duration) (over : N) (wd : World) : World :=
  mkWorld (now wd + Z.max 0 d + Z.of_N over) (rng wd) (logs wd) (trace wd).

Inductive Throttle : Type := Admit | Defer.

(** Lines 177-185: the window reset, the cap test and the increment.
    The count stays at or below the cap, so the increment cannot
    overflow. *)
Definition throttle (maxQPS : Z) (inp : Inputs) (w : Worker) (wd : World)
  : Throttle * Worker * World :=
  let wd := tick (dt_check inp) wd in
  let '(w, wd) :=
    if Second <=? Time_Sub (now wd) (lastQueryTime w) then
      let wd := tick (dt_reset inp) wd in
      (mkWorker 0 (now wd) (packageName w) (firstLoop w), wd)
    else (w, wd) in
  if maxQPS <=? queryCount w then
    let wd := tick (dt_until inp) wd in
    let d := Time_Sub (Time_Add (lastQueryTime w) Second) (now wd) in
    let wd := time_Sleep d (dt_oversleep inp) wd in
    (Defer, w, emit (EvSleep (lastQueryTime w) d (now wd)) wd)
  else
    let w := mkWorker (queryCount w + 1) (lastQueryTime w)
                      (packageName w) (firstLoop w) in
    (Admit, w, emit (EvAdmit (lastQueryTime w) (queryCount w) (now wd)) wd).

(** One call of [executeCommand] inside the loop: the clock advances by
    the time the command took and the call is recorded. *)
Definition run_command (command : string) (cfg : Config) (o : RunOutcome)
  (wd : World) : option string * World :=
  let '(cmd, msgs, (_, err)) := executeCommand command (password cfg) o in
  let started := now wd in
  let wd := tick (run_elapsed o) wd in
  (err, emit_all (EvRun cmd started (now wd) :: map EvPrint msgs) wd).

Definition print_if (b : bool) (m : Msg) (wd : World) : World :=
  if b then emit (EvPrint m) wd else wd.

Definition is_composite (cfg : Config) : bool :=
  (mode cfg =? "addpkg+call")%string.

(** Lines 187-231: the commands of one operation and its log entry. *)
Definition operation (cfg : Config) (inp : Inputs) (w : Worker) (wd : World)
  : result (Worker * World) :=
  let firstMode := if is_composite cfg then "addpkg" else mode cfg in
  '(pkg, r) <-
     (if is_composite cfg && is_empty (packageName w)
      then randomString MaxPackageLength (rng wd)
      else Ok (packageName w, rng wd)) ;;
  '(cmdStr, r) <-
     generateCommand firstMode pkg (functionName cfg) (remote cfg)
                     (keyName cfg) (pkgDir cfg) (chainID cfg) r ;;
  let wd := set_rng r wd in
  let wd := print_if (firstLoop w) (MsgExecuting cmdStr) wd in
  let wd := tick (dt_start inp) wd in
  let start := now wd in
  let '(err, wd) := run_command cmdStr cfg (run1 inp) wd in
  let wd :=
    match err with
    | Some e => emit (EvPrint (MsgWarning e)) wd
    | None => wd
    end in
  '(pkg, wd) <-
     (if is_composite cfg then
        '(cmdStr2, r) <-
           generateCommand "call" pkg (functionName cfg) (remote cfg)
                           (keyName cfg) (pkgDir cfg) (chainID cfg) (rng wd) ;;
        let wd := set_rng r wd in
        let '(_, wd) := run_command cmdStr2 cfg (run2 inp) wd in
        let wd := print_if (firstLoop w) (MsgExecuting cmdStr2) wd in
        Ok (EmptyString, wd)
      else Ok (pkg, wd)) ;;
  let wd := tick (dt_since inp) wd in
  let duration := Time_Sub (now wd) start in
  let wd := emit (EvPrint (MsgCompleted duration)) wd in
  let wd := tick (dt_stamp inp) wd in
  let x := mkExecutionLog (now wd) duration in
  let wd := mkWorld (now wd) (rng wd) (logs wd ++ [x])%list
                    (trace wd ++ [EvAppend x])%list in
  Ok (mkWorker (queryCount w) (lastQueryTime w) pkg false, wd).

(** One turn of the [for] loop. *)
Definition iteration (cfg : Config) (inp : Inputs) (w : Worker) (wd : World)
  : result (Worker * World) :=
  match throttle (maxQPS cfg) inp w wd with
  | (Defer, w, wd) => Ok (w, wd)
  | (Admit, w, wd) => operation cfg inp w wd
  end.

(** The loop never ends by itself: a run is what it does on a finite
    list of inputs, one per turn.  A panic ends the run (and the
    process) with the world as it was when the fatal turn began. *)
Fixpoint executeTask_loop (cfg : Config) (inputs : list Inputs)
  (w : Worker) (wd : World) : Worker * World * option string :=
  match inputs with
  | [] => (w, wd, None)
  | inp :: rest =>
      match iteration cfg inp w wd with
      | Ok (w', wd') => executeTask_loop cfg rest w' wd'
      | Panic msg => (w, wd, Some msg)
      end
  end.

(** Lines 171-174: the locals on entry. *)
Definition executeTask_init (pkg : string) (wd : World) : Worker :=
  mkWorker 0 (now wd) pkg true.

Definition executeTask (cfg : Config) (pkg : string) (inputs : list Inputs)
  (wd : World) : Worker * World * option string :=
  executeTask_loop cfg inputs (executeTask_init pkg wd) wd.

(** ** saveLogs (profiler.go, lines 294-309) *)

(** The two formatting routines that [saveLogs] calls and whose code is
    not part of the repository: [Time.Format(time.RFC3339)] and
    [fmt.Sprintf("%f", d.Seconds())]. *)
Class Library : Type := mkLibrary {
  Format_RFC3339 : Time -> string;
  Sprintf_f_Seconds : Duration -> string
}.

(** [encoding/csv] with the settings of [csv.NewWriter] (comma as the
    separator, no CRLF): a field is written as it is unless it needs
    quotes; it needs quotes when it is [\.], holds a line feed, a carriage
    return, a quote or a comma, or begins with a Unicode space; inside
    quotes a quote is doubled; fields are separated by commas and the
    record ends with a line feed. *)
Definition quote : ascii := ascii_of_nat 34.
Definition LF : ascii := ascii_of_nat 10.
Definition CR : ascii := ascii_of_nat 13.
Definition comma : ascii := ascii_of_nat 44.

Fixpoint has_special (s : string) : bool :=
  match s with
  | EmptyString => false
  | String c s' =>
      Ascii.eqb c LF || Ascii.eqb c CR || Ascii.eqb c quote
      || Ascii.eqb c comma || has_special s'
  end.

Definition bytes (l : list nat) : string :=
  string_of_list_ascii (map ascii_of_nat l).

(** The UTF-8 encodings of the runes for which [unicode.IsSpace] holds. *)
Definition space_runes : list string :=
  map bytes
      [[9]; [10]; [11]; [12]; [13]; [32]; [194; 133]; [194; 160];
       [225; 154; 128];
       [226; 128; 128]; [226; 128; 129]; [226; 128; 130]; [226; 128; 131];
       [226; 128; 132]; [226; 128; 133]; [226; 128; 134]; [226; 128; 135];
       [226; 128; 136]; [226; 128; 137]; [226; 128; 138];
       [226; 128; 168]; [226; 128; 169]; [226; 128; 175];
       [226; 129; 159]; [227; 128; 128]]%nat.

Definition begins_with_space (s : string) : bool :=
  existsb (fun r => String.prefix r s) space_runes.

Definition fieldNeedsQuotes (field : string) : bool :=
  if is_empty field then false
  else if (field =? "\.")%string then true
  else if has_special field then true
  else begins_with_space field.

Fixpoint quoted (s : string) : string :=
  match s with
  | EmptyString => EmptyString
  | String c s' =>
      if Ascii.eqb c quote then String quote (String quote (quoted s'))
      else String c (quoted s')
  end.

Definition csv_field (field : string) : string :=
  if fieldNeedsQuotes field
  then String quote (quoted field ++ String quote EmptyString)
  else field.

Definition csv_record (record : list string) : string :=
  String.concat (String comma EmptyString) (map csv_field record)
  ++ String LF EmptyString.

(** Files by name. *)
Definition FS := string -> option string.

Definition fs_put (fs : FS) (name content : string) : FS :=
  fun n => if (n =? name)%string then Some content else fs n.

(** What the file system does to one call of [saveLogs]: [os.Create] may
    fail with [create_err]; the file accepts [room] more bytes before a
    write fails ([None]: no write fails). *)
Record Disk : Type := mkDisk {
  create_err : option string;
  room : option nat
}.

(** A [csv.Writer] on top of the created file: the bytes still in its
    buffer, the bytes that reached the file, and the sticky error of the
    underlying [bufio.Writer]. *)
Record Writer : Type := mkWriter {
  buffered : string;
  written : string;
  room_left : option nat;
  failed : bool
}.

Definition csv_NewWriter (d : Disk) : Writer :=
  mkWriter EmptyString EmptyString (room d) false.

Definition csv_Write (record : list string) (wr : Writer) : Writer :=
  if failed wr then wr
  else mkWriter (buffered wr ++ csv_record record) (written wr)
                (room_left wr) false.

Definition csv_Flush (wr : Writer) : Writer :=
  if failed wr then wr
  else match room_left wr with
       | None =>
           mkWriter EmptyString (written wr ++ buffered wr) None false
       | Some k =>
           let n := String.length (buffered wr) in
           if (n <=? k)%nat then
             mkWriter EmptyString (written wr ++ buffered wr)
                      (Some (k - n)%nat) false
           else
             mkWriter EmptyString
                      (written wr ++ substring 0 k (buffered wr))
                      (Some O) true
       end.

Definition header : list string := ["Timestamp"; "ResponseTime"].

Definition row `{Library} (log : ExecutionLog) : list string :=
  [Format_RFC3339 (Timestamp log); Sprintf_f_Seconds (ResponseTime log)].

(** The writer after the body of [saveLogs] and its deferred [Flush]. *)
Definition saveLogs_writer `{Library} (logs : list ExecutionLog) (d : Disk)
  : Writer :=
  let wr := csv_NewWriter d in
  let wr := csv_Write header wr in
  let wr :=
    fold_left (fun wr log => csv_Flush (csv_Write (row log) wr)) logs wr in
  csv_Flush wr.

Definition saveLogs `{Library} (logs : list ExecutionLog) (d : Disk) (fs : FS)
  : FS * list Msg :=
  match create_err d with
  | Some e => (fs, [MsgCreateFailed e])
  | None => (fs_put fs csvFile (written (saveLogs_writer logs d)), [])
  end.

(** The text of a whole file: the header record and one record per
    sample, in the order of the log. *)
Definition csv_text `{Library} (logs : list ExecutionLog) : string :=
  csv_record header ++ String.concat EmptyString (map (fun x => csv_record (row x)) logs).

(** What a disk with [room] lets through of a text, and whether it
    lets all of it through. *)
Definition accepted (room : option nat) (text : string) : string :=
  match room with
  | None => text
  | Some k => substring 0 k text
  end.

Definition fits (room : option nat) (text : string) : bool :=
  match room with
  | None => true
  | Some k => (String.length text <=? k)%nat
  end.

(** The writer [wr] on a disk with [room], after the text [T] was handed
    to it. *)
Definition writer_inv (room : option nat) (T : string) (wr : Writer) : Prop :=
  if failed wr then
    fits room T = false /\ written wr = accepted room T
  else
    T = written wr ++ buffered wr
    /\ fits room (written wr) = true
    /\ room_left wr
       = match room with
         | None => None
         | Some k => Some (k - String.length (written wr))%nat
         end.



(** ** main: the spawn loop (profiler.go, lines 136-138 and 156-167)

    The goroutines of the pool as a transition system.  [main] cycles
    through its three statements; a goroutine is inside [executeTask],
    or has left it and is about to receive from [sem], or has received
    and is about to call [wg.Done]. *)

Inductive MainPC : Type := AtSend | AtAdd | AtGo.

Record Pool : Type := mkPool {
  sem_cap : Z;
  sem_len : Z;
  main_pc : MainPC;
  wg : Z;
  in_loop : Z;
  leaving : Z;
  finishing : Z
}.

Inductive PoolAction : Type :=
| PSend      (* sem <- struct{}{} into a free buffer slot *)
| PHandoff   (* the same send, handed to a goroutine waiting in <-sem *)
| PAdd       (* wg.Add(1) *)
| PGo        (* go func() { ... }() *)
| PReturn    (* executeTask returns in some goroutine; its loop has no
                exit, the step only widens the set of schedules *)
| PRecv      (* <-sem in the deferred function *)
| PDone.     (* wg.Done() *)

(** [make(chan struct{}, n)] panics for a negative [n]. *)
Definition pool_init (maxThreads : Z) : result Pool :=
  if maxThreads <? 0 then Panic "makechan: size out of range"
  else Ok (mkPool maxThreads 0 AtSend 0 0 0 0).

Definition pending (p : Pool) : Z :=
  match main_pc p with AtSend => 0 | _ => 1 end.

Definition pool_step (p : Pool) (a : PoolAction) : option Pool :=
  match a, main_pc p with
  | PSend, AtSend =>
      if sem_len p <? sem_cap p then
        Some (mkPool (sem_cap p) (sem_len p + 1) AtAdd (wg p)
                     (in_loop p) (leaving p) (finishing p))
      else None
  | PHandoff, AtSend =>
      if (sem_len p =? 0) && (0 <? leaving p) then
        Some (mkPool (sem_cap p) (sem_len p) AtAdd (wg p)
                     (in_loop p) (leaving p - 1) (finishing p + 1))
      else None
  | PAdd, AtAdd =>
      Some (mkPool (sem_cap p) (sem_len p) AtGo (wg p + 1)
                   (in_loop p) (leaving p) (finishing p))
  | PGo, AtGo =>
      Some (mkPool (sem_cap p) (sem_len p) AtSend (wg p)
                   (in_loop p + 1) (leaving p) (finishing p))
  | PReturn, _ =>
      if 0 <? in_loop p then
        Some (mkPool (sem_cap p) (sem_len p) (main_pc p) (wg p)
                     (in_loop p - 1) (leaving p + 1) (finishing p))
      else None
  | PRecv, _ =>
      if (0 <? leaving p) && (0 <? sem_len p) then
        Some (mkPool (sem_cap p) (sem_len p - 1) (main_pc p) (wg p)
                     (in_loop p) (leaving p - 1) (finishing p + 1))
      else None
  | PDone, _ =>
      if 0 <? finishing p then
        Some (mkPool (sem_cap p) (sem_len p) (main_pc p) (wg p - 1)
                     (in_loop p) (leaving p) (finishing p - 1))
      else None
  | _, _ => None
  end.

Fixpoint pool_run (sched : list PoolAction) (p : Pool) : option Pool :=
  match sched with
  | [] => Some p
  | a :: rest =>
      match pool_step p a with
      | Some p' => pool_run rest p'
      | None => None
      end
  end.

(** Every goroutine that is in [executeTask] or on its way out, and the
    one that [main] is about to start, holds one of the tokens that are
    in the buffer of [sem]. *)
Definition pool_inv (p : Pool) : Prop :=
  0 <= sem_len p <= sem_cap p
  /\ in_loop p + leaving p + pending p = sem_len p
  /\ 0 <= in_loop p /\ 0 <= leaving p /\ 0 <= finishing p.

(** ** main: the signal handler and the appends (lines 140-152, 229-231)

    The goroutines that touch [logs] as a transition system: each worker
    appends between [logMutex.Lock()] and [logMutex.Unlock()]; the
    handler goroutine waits on [signalChan], prints, calls
    [saveLogs(logs)] and exits the process. *)

Inductive AppendPC : Type :=
| Outside
| Locked (x : ExecutionLog)
| Stored.

Inductive HandlerPC : Type := Waiting | Received | Announced | Saved | Exited.

(** One call of [saveLogs] as it happened: its argument and the holder
    of [logMutex] at that moment. *)
Record Flush : Type := mkFlush {
  flushed : list ExecutionLog;
  holder : option nat
}.

Record Process : Type := mkProcess {
  shared_logs : list ExecutionLog;
  logMutex : option nat;
  appending : nat -> AppendPC;
  signalChan : nat;
  handler : HandlerPC;
  files : FS;
  console : list Msg;
  flushes : list Flush
}.

Inductive Action : Type :=
| WLock (i : nat) (x : ExecutionLog)
| WAppend (i : nat)
| WUnlock (i : nat)
| Signal
| HReceive
| HAnnounce
| HSave (d : Disk)
| HExit.

Definition set_pc (f : nat -> AppendPC) (i : nat) (pc : AppendPC)
  : nat -> AppendPC :=
  fun j => if Nat.eqb j i then pc else f j.

Definition alive (p : Process) : bool :=
  match handler p with Exited => false | _ => true end.

Definition process_step `{Library} (p : Process) (a : Action) : option Process :=
  if negb (alive p) then None else
  match a with
  | WLock i x =>
      match logMutex p, appending p i with
      | None, Outside =>
          Some (mkProcess (shared_logs p) (Some i)
                          (set_pc (appending p) i (Locked x))
                          (signalChan p) (handler p) (files p) (console p)
                          (flushes p))
      | _, _ => None
      end
  | WAppend i =>
      match appending p i with
      | Locked x =>
          Some (mkProcess (shared_logs p ++ [x])%list (logMutex p)
                          (set_pc (appending p) i Stored)
                          (signalChan p) (handler p) (files p) (console p)
                          (flushes p))
      | _ => None
      end
  | WUnlock i =>
      match appending p i with
      | Stored =>
          Some (mkProcess (shared_logs p) None
                          (set_pc (appending p) i Outside)
                          (signalChan p) (handler p) (files p) (console p)
                          (flushes p))
      | _ => None
      end
  | Signal =>
      (* the runtime does not block: a signal that finds the buffer of
         capacity 1 full is dropped *)
      Some (mkProcess (shared_logs p) (logMutex p) (appending p)
                      (if (signalChan p <? 1)%nat then S (signalChan p)
                       else signalChan p)
                      (handler p) (files p) (console p) (flushes p))
  | HReceive =>
      match handler p, signalChan p with
      | Waiting, S n =>
          Some (mkProcess (shared_logs p) (logMutex p) (appending p) n
                          Received (files p) (console p) (flushes p))
      | _, _ => None
      end
  | HAnnounce =>
      match handler p with
      | Received =>
          Some (mkProcess (shared_logs p) (logMutex p) (appending p)
                          (signalChan p) Announced (files p)
                          (console p ++ [MsgStopping])%list (flushes p))
      | _ => None
      end
  | HSave d =>
      match handler p with
      | Announced =>
          let '(fs, msgs) := saveLogs (shared_logs p) d (files p) in
          Some (mkProcess (shared_logs p) (logMutex p) (appending p)
                          (signalChan p) Saved fs
                          (console p ++ msgs)%list
                          (flushes p ++ [mkFlush (shared_logs p) (logMutex p)])%list)
      | _ => None
      end
  | HExit =>
      match handler p with
      | Saved =>
          Some (mkProcess (shared_logs p) (logMutex p) (appending p)
                          (signalChan p) Exited (files p) (console p)
                          (flushes p))
      | _ => None
      end
  end.

Fixpoint process_run `{Library} (sched : list Action) (p : Process)
  : option Process :=
  match sched with
  | [] => Some p
  | a :: rest =>
      match process_step p a with
      | Some p' => process_run rest p'
      | None => None
      end
  end.

Definition process_init (fs : FS) : Process :=
  mkProcess [] None (fun _ => Outside) O Waiting fs [] [].

(** A flush is serialized with the appends when nobody held [logMutex]
    while it ran (the handler itself never takes it). *)
Definition serialized (f : Flush) : bool :=
  match holder f with None => true | Some _ => false end.


(** ** Counting in traces *)

Definition admitted_in (w : Time) (e : Event) : bool :=
  match e with
  | EvAdmit w' _ _ => w' =? w
  | _ => false
  end.

(** Admitted at a clock reading inside the second that starts at [w]. *)
Definition admitted_during (w : Time) (e : Event) : bool :=
  match e with
  | EvAdmit _ _ t => (w <=? t) && (t <? w + Second)
  | _ => false
  end.

(** Neither an admission nor a sleep: what an operation adds to the
    trace. *)
Definition quiet (e : Event) : bool :=
  match e with
  | EvAdmit _ _ _ | EvSleep _ _ _ => false
  | _ => true
  end.

Definition admissions (w : Time) (tr : list Event) : Z :=
  Z.of_nat (List.length (filter (admitted_in w) tr)).

Definition is_append (e : Event) : bool :=
  match e with EvAppend _ => true | _ => false end.

Definition is_run (e : Event) : bool :=
  match e with EvRun _ _ _ => true | _ => false end.

(** A command that was run was [bash], fed the secret [pw] and a line
    break on its standard input. *)
Definition fed (pw : string) (e : Event) : Prop :=
  match e with
  | EvRun c _ _ => Path c = "bash" /\ Stdin c = pw ++ newline
  | _ => True
  end.

(** ** The invariant of the throttle

    What holds of one event of the trace while [last] is the start of
    the current window: an admission carries a count between 1 and the
    cap and a clock reading inside its own window, and its window is the
    current one or ended before the current one began; a sleep ends no
    earlier than the end of the window it was started in. *)
Definition event_ok (Q : Z) (last : Time) (e : Event) : Prop :=
  match e with
  | EvAdmit win c t =>
      win <= t < win + Second /\ 1 <= c <= Q
      /\ (win = last \/ win + Second <= last)
  | EvSleep win d wake => win + Second <= wake
  | _ => True
  end.

(** Two admissions belong to the same window or to windows whose starts
    are at least a second apart. *)
Definition spaced (tr : list Event) : Prop :=
  forall win c t win' c' t',
    In (EvAdmit win c t) tr -> In (EvAdmit win' c' t') tr ->
    win = win' \/ win + Second <= win' \/ win' + Second <= win.

Definition throttle_inv (Q : Z) (w : Worker) (wd : World) : Prop :=
  0 <= queryCount w <= Q
  /\ admissions (lastQueryTime w) (trace wd) = queryCount w
  /\ lastQueryTime w <= now wd
  /\ Forall (event_ok Q (lastQueryTime w)) (trace wd)
  /\ spaced (trace wd)
  /\ (forall win, admissions win (trace wd) <= Q).

(** ** Vocabulary of the statements about one composite cycle *)

(** The package name that a turn of the loop works with in the mode
    [addpkg+call]: the one it was handed, or twenty letters taken from
    the next twenty draws. *)
Definition cycle_name (w : Worker) (wd : World) : string :=
  if is_empty (packageName w)
  then letters (raw (rng wd)) (pos (rng wd)) 20
  else packageName w.

Definition cycle_rng (w : Worker) (wd : World) : Rng :=
  if is_empty (packageName w)
  then mkRng (raw (rng wd)) (pos (rng wd) + 20)
  else rng wd.

Definition operationName (cfg : Config) : string :=
  if is_empty (functionName cfg) then "Main" else functionName cfg.

Definition composite (fn rem key dir chain : string) (Q : Z) (pw : string)
  : Config :=
  mkConfig "addpkg+call" fn rem key dir chain Q pw.


(** ** Sample inputs *)

Definition rng0 : Rng := mkRng (fun k => Z.of_nat k * 7 + 3) O.

(** A command that succeeds after [ns] nanoseconds. *)
Definition ran_for (ns : N) : RunOutcome :=
  mkRunOutcome "OK!" EmptyString None ns.

(** A turn in which only the commands take time. *)
Definition turn (ns1 ns2 : N) : Inputs :=
  mkInputs 0 0 0 0 0 (ran_for ns1) (ran_for ns2) 0 0.

Definition cfg_call : Config :=
  mkConfig "call" "Main" "localhost:26657" "Dev" "." "dev" 2 EmptyString.

Definition world0 : World := mkWorld 0 rng0 [] [].

Definition loud (e : Event) : bool := negb (quiet e).

(** Stand-ins for the two formatting routines, for the examples: both
    print the nanosecond count in decimal. *)
Definition sample_library : Library := mkLibrary fmt_d fmt_d.

Definition logs2 : list ExecutionLog :=
  [mkExecutionLog 100 100; mkExecutionLog 250 150].

Definition no_files : FS := fun _ => None.

Definition good_disk : Disk := mkDisk None None.

(** A stop signal that arrives while worker 0 is between
    [logMutex.Lock()] and [logMutex.Unlock()] with its sample. *)
Definition sample_x : ExecutionLog := mkExecutionLog 300 200.

Definition signal_during_append : list Action :=
  [WLock 0 (mkExecutionLog 100 100); WAppend 0; WUnlock 0;
   WLock 0 sample_x;
   Signal; HReceive; HAnnounce; HSave good_disk; HExit].

(** What makes [saveLogs] fail, and whether anything was printed. *)
Definition persistence_error `{Library} (logs : list ExecutionLog) (d : Disk)
  : bool :=
  match create_err d with
  | Some _ => true
  | None => failed (saveLogs_writer logs d)
  end.

Definition reported (out : list Msg) : bool :=
  match out with [] => false | _ => true end.

(** A disk on which the file can be created and that is full after ten
    bytes. *)
Definition full_disk : Disk := mkDisk None (Some 10%nat).

(** The composite mode with the package name [mypkg] given on the
    command line. *)
Definition cfg_pinned : Config :=
  composite "Main" "localhost:26657" "Dev" "." "dev" 2 EmptyString.


(** ** validateArgs (profiler.go, lines 33-90) *)

Record CommandLineArgs : Type := mkCommandLineArgs {
  MaxThreads : Z;
  MaxQPS : Z;
  Mode : string;
  PackageName : string;
  FunctionName : string;
  Remote : string;
  KeyName : string;
  PkgDir : string;
  ChainID : string
}.

(** [validateArgs] returns, or prints one line and calls [os.Exit(1)]. *)
Inductive Verdict : Type :=
| Accepted
| Exit (code : Z) (printed : string).

Definition validateArgs (args : CommandLineArgs) : Verdict :=
  if (Mode args =? "addpkg")%string && negb (is_empty (FunctionName args)) then
    Exit 1 "Error: function argument should not be provided in addpkg mode"
  else if (Mode args =? "call")%string && is_empty (PackageName args) then
    Exit 1 "Error: package argument must be specified in call mode."
  else if (Mode args =? "balanceQuery")%string
          && negb (is_empty (PackageName args)) then
    Exit 1 "Error: Cannot specify packageName in balanceQuery mode."
  else if (Mode args =? "balanceQuery")%string
          && negb (is_empty (FunctionName args)) then
    Exit 1 "Error: Cannot specify function in balanceQuery mode."
  else if (Mode args =? "balanceQuery")%string
          && negb (PkgDir args =? ".")%string then
    Exit 1 "Error: Cannot specify pkgDir in balanceQuery mode."
  else if (Mode args =? "qrender")%string && is_empty (PackageName args) then
    Exit 1 "Error: package must be specified in qrender mode."
  else if (Mode args =? "qrender")%string
          && negb (ChainID args =? DefaultChainId)%string then
    Exit 1 "Error: Chain ID cannot be specified in qrender mode."
  else Accepted.

(** ** main: flags and the secret (profiler.go, lines 92-134) *)

(** The values of the flags when none is given (lines 94-102). *)
Definition default_args : CommandLineArgs :=
  mkCommandLineArgs 1 1 "call" EmptyString EmptyString "localhost:26657"
                    "Dev" "." DefaultChainId.

(** What [executeTask] is handed on line 165. *)
Definition config_of (args : CommandLineArgs) (pw : string) : Config :=
  mkConfig (Mode args) (FunctionName args) (Remote args) (KeyName args)
           (PkgDir args) (ChainID args) (MaxQPS args) pw.

(** The standard input of the process: whether [Stat] fails, whether it
    is a character device (a terminal), and the bytes that can be read
    from it. *)
Record StdinFile : Type := mkStdinFile {
  stat_err : option string;
  char_device : bool;
  content : string
}.

(** [bufio.Scanner] with its defaults: tokens are lines, a line feed ends
    a line, one carriage return before it is dropped, the last line
    needs no line feed, and a line that does not fit the buffer of
    [MaxScanTokenSize] bytes makes [Scan] fail. *)
Definition MaxScanTokenSize : Z := 65536.

Fixpoint index_LF (s : string) : option nat :=
  match s with
  | EmptyString => None
  | String c s' =>
      if Ascii.eqb c LF then Some O
      else match index_LF s' with
           | Some i => Some (S i)
           | None => None
           end
  end.

Fixpoint dropCR (s : string) : string :=
  match s with
  | EmptyString => EmptyString
  | String c EmptyString => if Ascii.eqb c CR then EmptyString else s
  | String c s' => String c (dropCR s')
  end.

(** The result of the first [Scan]: [Some] of [Text()] when it returns
    true. *)
Definition Scan (data : string) : option string :=
  match index_LF data with
  | Some i =>
      if Z.of_nat i <? MaxScanTokenSize
      then Some (dropCR (substring 0 i data))
      else None
  | None =>
      if is_empty data then None
      else if len data <? MaxScanTokenSize then Some (dropCR data)
      else None
  end.

(** Lines 118-134. *)
Definition read_password (stdin : StdinFile) : Verdict + string :=
  match stat_err stdin with
  | Some e => inl (Exit 1 ("Error checking stdin: " ++ e))
  | None =>
      if negb (char_device stdin) then
        match Scan (content stdin) with
        | Some text => inr text
        | None => inr EmptyString
        end
      else inr EmptyString
  end.

(** [main] up to the start of the workers: the verdict on the flags, the
    secret, the semaphore.  [inl] is an exit of the process, [Panic]
    inside [inr] is the panic of [make]. *)
Definition main_start (args : CommandLineArgs) (stdin : StdinFile)
  : Verdict + result (Config * string * Pool) :=
  match validateArgs args with
  | Exit code msg => inl (Exit code msg)
  | Accepted =>
      match read_password stdin with
      | inl v => inl v
      | inr pw =>
          inr (p <- pool_init (MaxThreads args) ;;
               Ok (config_of args pw, PackageName args, p))
      end
  end.

(** ** The tests (part_000)

    [TestRandomStringUnique]: the test fails when two strings of 32
    letters generated one after the other are equal. *)
Definition TestRandomStringUnique (r : Rng) : result (bool * Rng) :=
  '(r1, r) <- randomString 32 r ;;
  '(r2, r) <- randomString 32 r ;;
  Ok (negb (r1 =? r2)%string, r).

(** The modes that [generateCommand] knows when called by [executeTask]. *)
Definition known_mode (m : string) : bool :=
  (m =? "addpkg")%string || (m =? "addpkg+call")%string
  || (m =? "call")%string || (m =? "balanceQuery")%string
  || (m =? "qrender")%string.

Definition is_admit (e : Event) : bool :=
  match e with EvAdmit _ _ _ => true | _ => false end.

Definition is_announce (e : Event) : bool :=
  match e with EvPrint (MsgExecuting _) => true | _ => false end.

Fixpoint sorted_stamps (l : list ExecutionLog) : Prop :=
  match l with
  | [] => True
  | x :: rest =>
      match rest with
      | [] => True
      | y :: _ => Timestamp x <= Timestamp y - ResponseTime y
      end /\ sorted_stamps rest
  end.

(** Whether [n] draws from position [k] select the same letters as [n]
    draws from position [k']. *)
Definition same_draws (draws : nat -> Z) (k k' n : nat) : bool :=
  forallb (fun i => draws (k + i)%nat mod 26 =? draws (k' + i)%nat mod 26)
          (seq 0 n).

(** A source that always draws 5, a pipe, and a line of [n] letters [a]. *)
Definition stuck_source : nat -> Z := fun _ => 5.

Definition pipe (data : string) : StdinFile := mkStdinFile None false data.

Fixpoint line_of (n : nat) : string :=
  match n with
  | O => EmptyString
  | S n' => String "a" (line_of n')
  end.

(** The modes for which [generateCommand] builds a command. *)
Definition single_mode (m : string) : bool :=
  (m =? "addpkg")%string || (m =? "call")%string
  || (m =? "balanceQuery")%string || (m =? "qrender")%string.

Definition is_ok {A : Type} (x : result A) : bool :=
  match x with Ok _ => true | Panic _ => false end.

(** The same arguments with other values for the four flags that
    [validateArgs] does not read. *)
Definition with_unchecked (args : CommandLineArgs) (threads qps : Z)
  (rem key : string) : CommandLineArgs :=
  mkCommandLineArgs threads qps (Mode args) (PackageName args)
                    (FunctionName args) rem key (PkgDir args) (ChainID args).

(** The event runs the command line [command] with the secret [pw]. *)
Definition runs_only (command pw : string) (e : Event) : Prop :=
  match e with
  | EvRun c _ _ => c = exec_Command command pw
  | _ => True
  end.

Definition is_sleep (e : Event) : bool :=
  match e with EvSleep _ _ _ => true | _ => false end.

(** What holds of the log and of the trace of a worker that started
    with the log [l0] and an empty trace: the log is [l0] with the
    samples added since, which are the appends of the trace, one per
    operation let through, each with [k] commands run. *)
Definition books (l0 : list ExecutionLog) (k : nat) (wd : World) : Prop :=
  exists added,
    logs wd = (l0 ++ added)%list
    /\ filter is_append (trace wd) = map EvAppend added
    /\ List.length (filter is_admit (trace wd)) = List.length added
    /\ List.length (filter is_run (trace wd)) = (k * List.length added)%nat.

Definition commands_per_operation (cfg : Config) : nat :=
  if is_composite cfg then 2%nat else 1%nat.

(** A sample measured after [t0] and logged by [t]: its response time is
    not negative and its measurement began no earlier than [t0]. *)
Definition sample_ok (t0 t : Time) (x : ExecutionLog) : Prop :=
  0 <= ResponseTime x <= maxDuration
  /\ t0 <= Timestamp x - ResponseTime x
  /\ Timestamp x <= t.

Definition announced (cfg : Config) (w : Worker) (wd : World) : Prop :=
  if firstLoop w then
    filter is_announce (trace wd) = [] /\ filter is_append (trace wd) = []
  else
    List.length (filter is_announce (trace wd)) = commands_per_operation cfg
    /\ filter is_append (trace wd) <> [].

(** The one command of an accepted set of arguments in the modes [call]
    and [qrender]. *)
Definition fixed_command (args : CommandLineArgs) : string :=
  if (Mode args =? "call")%string then
    callCommand (PackageName args)
                (if is_empty (FunctionName args) then "Main"
                 else FunctionName args)
                (ChainID args) (Remote args) (KeyName args)
  else qrenderCommand (PackageName args) (Remote args).

(** What [validateArgs] asks of the arguments, mode by mode. *)
Definition requirements (args : CommandLineArgs) : Prop :=
  (Mode args = "addpkg" -> FunctionName args = EmptyString)
  /\ (Mode args = "call" -> PackageName args <> EmptyString)
  /\ (Mode args = "balanceQuery" ->
      PackageName args = EmptyString /\ FunctionName args = EmptyString
      /\ PkgDir args = ".")
  /\ (Mode args = "qrender" ->
      PackageName args <> EmptyString /\ ChainID args = DefaultChainId).

(** The arguments of the README ([-mode addpkg+call -maxThreads 1
    -maxQueriesPerSec 1]) and two others. *)
Definition readme_args : CommandLineArgs :=
  mkCommandLineArgs 1 1 "addpkg+call" EmptyString EmptyString
                    "localhost:26657" "Dev" "." DefaultChainId.

Definition call_args : CommandLineArgs :=
  mkCommandLineArgs 1 2 "call" "testABC" EmptyString
                    "localhost:26657" "Dev" "." DefaultChainId.

Definition balance_args : CommandLineArgs :=
  mkCommandLineArgs 1 2 "balanceQuery" EmptyString EmptyString
                    "localhost:26657" "Dev" "." DefaultChainId.

(** [main] starting [k] workers one after the other. *)
Fixpoint spawn_schedule (k : nat) : list PoolAction :=
  match k with
  | O => []
  | S k' => PSend :: PAdd :: PGo :: spawn_schedule k'
  end.

(** The counter of [wg] is the number of goroutines that [main] has
    announced with [wg.Add] and that have not called [wg.Done]. *)
Definition wg_inv (p : Pool) : Prop :=
  wg p = in_loop p + leaving p + finishing p
         + match main_pc p with AtGo => 1 | _ => 0 end.

(** A worker is between [Lock] and [Unlock] exactly when it holds
    [logMutex]. *)
Definition mutex_inv (p : Process) : Prop :=
  forall i, appending p i <> Outside <-> logMutex p = Some i.

Definition is_WAppend (a : Action) : bool :=
  match a with WAppend _ => true | _ => false end.


(** An admission under a window that began before the time [s]. *)
Definition early_window (s : Time) (e : Event) : bool :=
  match e with EvAdmit win _ _ => win <? s | _ => false end.

(** A first turn that reaches the throttle 0.9 s after the worker
    started, and whose command takes a millisecond. *)
Definition late_start : Inputs :=
  mkInputs 900000000 0 0 0 0 (ran_for 1000000) (ran_for 0) 0 0.

(** Whether the worker's latest pass through the throttle was a sleep,
    given whether it was before the events [tr]. *)
Fixpoint last_slept (slept : bool) (tr : list Event) : bool :=
  match tr with
  | [] => slept
  | EvSleep _ _ _ :: tr' => last_slept true tr'
  | EvAdmit _ _ _ :: tr' => last_slept false tr'
  | _ :: tr' => last_slept slept tr'
  end.

(** Between any two sleeps of [tr] there is an admission. *)
Fixpoint sleeps_apart (slept : bool) (tr : list Event) : bool :=
  match tr with
  | [] => true
  | EvSleep _ _ _ :: tr' => negb slept && sleeps_apart true tr'
  | EvAdmit _ _ _ :: tr' => sleeps_apart false tr'
  | _ :: tr' => sleeps_apart slept tr'
  end.

(** What holds between two turns: the window did not start in the
    future, no two sleeps so far without an admission between them, and
    after a sleep the window is over. *)
Definition awake_inv (w : Worker) (wd : World) : Prop :=
  lastQueryTime w <= now wd
  /\ sleeps_apart false (trace wd) = true
  /\ (last_slept false (trace wd) = true -> lastQueryTime w + Second <= now wd).



(** * Part II: properties *)

(** ** randomString *)

Lemma charset_get (k : nat) :
  (k < 26)%nat ->
  exists c, String.get k charset = Some c /\ is_lower c = true.
Proof.
  intros Hk.
  do 26 (destruct k as [|k]; [eexists; split; reflexivity|]).
  lia.
Qed.

Lemma letter_spec (f : nat -> Z) (k : nat) :
  index charset (f k mod 26) = Ok (letter f k)
  /\ is_lower (letter f k) = true.
Proof.
  assert (Hm : 0 <= f k mod 26 < 26) by (apply Z.mod_pos_bound; lia).
  unfold index, letter.
  destruct (f k mod 26 <? 0) eqn:E; [apply Z.ltb_lt in E; lia|].
  destruct (charset_get (Z.to_nat (f k mod 26))) as (c & Hc & Hl); [lia|].
  rewrite Hc. split; [reflexivity | exact Hl].
Qed.

Lemma randomString_loop_spec (n : nat) :
  forall r, randomString_loop n r
            = Ok (letters (raw r) (pos r) n, mkRng (raw r) (pos r + n)).
Proof.
  induction n as [|n IH]; intros r; simpl.
  - rewrite Nat.add_0_r. destruct r; reflexivity.
  - unfold rand_Intn. change (len charset) with 26. simpl (26 <=? 0).
    cbv iota. unfold bind at 1.
    destruct (letter_spec (raw r) (pos r)) as [Hi _]. rewrite Hi.
    unfold bind at 1.
    rewrite IH. simpl. rewrite Nat.add_succ_r. reflexivity.
Qed.

Lemma letters_length (f : nat -> Z) (n : nat) :
  forall k, String.length (letters f k n) = n.
Proof. induction n; intros k; simpl; [|rewrite IHn]; reflexivity. Qed.

Lemma letters_lower (f : nat -> Z) (n : nat) :
  forall k, all_lower (letters f k n) = true.
Proof.
  induction n; intros k; simpl; [reflexivity|].
  rewrite IHn, (proj2 (letter_spec f k)). reflexivity.
Qed.

Lemma randomString_spec (n : Z) (r : Rng) :
  0 <= n ->
  randomString n r
  = Ok (letters (raw r) (pos r) (Z.to_nat n),
        mkRng (raw r) (pos r + Z.to_nat n)).
Proof.
  intros Hn. unfold randomString.
  destruct (n <? 0) eqn:E; [apply Z.ltb_lt in E; lia|].
  apply randomString_loop_spec.
Qed.

Lemma randomString_20 (r : Rng) :
  randomString MaxPackageLength r
  = Ok (letters (raw r) (pos r) 20, mkRng (raw r) (pos r + 20)).
Proof. apply (randomString_spec 20). lia. Qed.

Lemma is_empty_letters (f : nat -> Z) (k n : nat) :
  is_empty (letters f k (S n)) = false.
Proof. reflexivity. Qed.

Lemma generateCommand_generated (m fn rem key dir chain : string) (r : Rng) :
  generateCommand m EmptyString fn rem key dir chain r
  = generateCommand m (letters (raw r) (pos r) 20) fn rem key dir chain
                    (mkRng (raw r) (pos r + 20)).
Proof.
  unfold generateCommand.
  change (is_empty EmptyString) with true. cbv iota.
  rewrite randomString_20.
  rewrite is_empty_letters. reflexivity.
Qed.

(** C9.  For a length [n >= 0], [randomString] returns (it does not
    panic) a string of exactly [n] bytes, each one a lowercase letter
    [a]-[z], and uses up [n] draws of the random source.  The constant
    [MaxPackageLength] is 20, and it is the length of the identifier
    that [generateCommand] makes up when it is given no package name. *)
Theorem randomString_length_alphabet (n : Z) (r : Rng) (Hn : 0 <= n) :
  (exists s r',
      randomString n r = Ok (s, r')
      /\ len s = n
      /\ all_lower s = true
      /\ raw r' = raw r
      /\ pos r' = (pos r + Z.to_nat n)%nat)
  /\ MaxPackageLength = 20
  /\ (forall m fn rem key dir chain,
        exists s r',
          randomString MaxPackageLength r = Ok (s, r')
          /\ len s = 20
          /\ all_lower s = true
          /\ generateCommand m EmptyString fn rem key dir chain r
             = generateCommand m s fn rem key dir chain r').
Proof.
  split; [|split; [reflexivity|]].
  - exists (letters (raw r) (pos r) (Z.to_nat n)),
           (mkRng (raw r) (pos r + Z.to_nat n)).
    split; [apply randomString_spec; exact Hn|].
    split; [unfold len; rewrite letters_length; lia|].
    split; [apply letters_lower|]. split; reflexivity.
  - intros m fn rem key dir chain.
    exists (letters (raw r) (pos r) 20), (mkRng (raw r) (pos r + 20)).
    split; [apply randomString_20|].
    split; [unfold len; rewrite letters_length; reflexivity|].
    split; [apply letters_lower|].
    apply generateCommand_generated.
Qed.

Lemma randomString_length_alphabet_witness :
  0 <= 3
  /\ exists s r',
       randomString 3 rng0 = Ok (s, r') /\ len s = 3 /\ all_lower s = true.
Proof.
  assert (H3 : 0 <= 3) by (intro H; discriminate H).
  split; [exact H3|].
  destruct (randomString_length_alphabet 3 rng0 H3)
    as [(s & r' & Hs & Hl & Ha & _) _].
  exists s, r'. repeat split; assumption.
Defined.

Example randomString_3 : randomString 3 rng0 = Ok ("dkr", mkRng (raw rng0) 3).
Proof. reflexivity. Qed.

(** ** executeCommand *)

Lemma exec_Command_Stdin (command pw : string) :
  Stdin (exec_Command command pw) = pw ++ newline.
Proof.
  unfold exec_Command, is_empty; simpl.
  destruct pw; reflexivity.
Qed.


(** ** generateCommand *)

Lemma generateCommand_addpkg (p fn rem key dir chain : string) (r : Rng) :
  is_empty p = false ->
  generateCommand "addpkg" p fn rem key dir chain r
  = Ok (addpkgCommand p dir chain rem key, r).
Proof. intros Hp. unfold generateCommand. rewrite Hp. reflexivity. Qed.

Lemma generateCommand_call (p fn rem key dir chain : string) (r : Rng) :
  is_empty p = false ->
  generateCommand "call" p fn rem key dir chain r
  = Ok (callCommand p (if is_empty fn then "Main" else fn) chain rem key, r).
Proof. intros Hp. unfold generateCommand. rewrite Hp. reflexivity. Qed.

Lemma cycle_name_not_empty (w : Worker) (wd : World) :
  is_empty (cycle_name w wd) = false.
Proof.
  unfold cycle_name. destruct (is_empty (packageName w)) eqn:E; [|exact E].
  apply is_empty_letters.
Qed.

Lemma cycle_name_draw (w : Worker) (wd : World) :
  (if is_empty (packageName w)
   then randomString MaxPackageLength (rng wd)
   else Ok (packageName w, rng wd))
  = Ok (cycle_name w wd, cycle_rng w wd).
Proof.
  unfold cycle_name, cycle_rng.
  destruct (is_empty (packageName w)); [apply randomString_20 | reflexivity].
Qed.

(** ** One composite cycle, written out *)

Lemma operation_composite (fn rem key dir chain : string) (Q : Z) (pw : string)
  (inp : Inputs) (w : Worker) (wd : World) :
  let cfg := composite fn rem key dir chain Q pw in
  let p := cycle_name w wd in
  let cmd1 := exec_Command (addpkgCommand p dir chain rem key) pw in
  let cmd2 := exec_Command (callCommand p (operationName cfg) chain rem key) pw in
  let t0 := now wd + Z.of_N (dt_start inp) in
  let t1 := t0 + Z.of_N (run_elapsed (run1 inp)) in
  let t2 := t1 + Z.of_N (run_elapsed (run2 inp)) in
  let t3 := t2 + Z.of_N (dt_since inp) in
  let x := mkExecutionLog (t3 + Z.of_N (dt_stamp inp)) (Time_Sub t3 t0) in
  exists es,
    operation cfg inp w wd
    = Ok (mkWorker (queryCount w) (lastQueryTime w) EmptyString false,
          mkWorld (Timestamp x) (cycle_rng w wd) (logs wd ++ [x])%list
                  (trace wd ++ es)%list)
    /\ filter is_run es = [EvRun cmd1 t0 t1; EvRun cmd2 t1 t2]
    /\ filter is_append es = [EvAppend x]
    /\ forallb quiet es = true.
Proof.
  cbv zeta. unfold operation, composite, operationName.
  change (is_composite _) with true. cbv iota. rewrite andb_true_l.
  cbn [packageName mode functionName remote keyName pkgDir chainID password].
  rewrite cycle_name_draw. unfold bind at 1.
  rewrite (generateCommand_addpkg _ _ _ _ _ _ _ (cycle_name_not_empty w wd)).
  unfold bind at 1.
  unfold run_command, executeCommand, print_if, emit, emit_all, tick, set_rng.
  cbn [now rng logs trace password run_err fst snd].
  rewrite (generateCommand_call _ _ _ _ _ _ _ (cycle_name_not_empty w wd)).
  destruct (firstLoop w), (run_err (run1 inp)), (run_err (run2 inp));
    cbn [bind now rng logs trace map app];
    (eexists; split;
     [rewrite <- ?app_assoc; reflexivity
     | repeat split; reflexivity]).
Qed.

(** ** The throttle *)

Lemma Second_le_Time_Sub (a b : Time) :
  (Second <=? Time_Sub a b) = (Second <=? a - b).
Proof.
  unfold Time_Sub, saturate, minDuration, maxDuration, Second.
  change (2 ^ 63) with 9223372036854775808.
  destruct (Z.leb_spec 1000000000 (a - b));
    [apply Z.leb_le | apply Z.leb_gt]; lia.
Qed.

Lemma admissions_app (win : Time) (tr es : list Event) :
  admissions win (tr ++ es) = admissions win tr + admissions win es.
Proof.
  unfold admissions. rewrite filter_app, length_app. lia.
Qed.

Lemma admissions_nonneg (win : Time) (tr : list Event) :
  0 <= admissions win tr.
Proof. unfold admissions. lia. Qed.

Lemma admissions_quiet (win : Time) (es : list Event) :
  forallb quiet es = true -> admissions win es = 0.
Proof.
  unfold admissions. induction es as [|e es IH]; simpl; [reflexivity|].
  intros H. apply andb_true_iff in H as [He Hes].
  destruct e; simpl in *; try discriminate; auto.
Qed.

Lemma admissions_later (Q : Z) (last win : Time) (tr : list Event) :
  Forall (event_ok Q last) tr -> last < win -> admissions win tr = 0.
Proof.
  unfold admissions. induction 1 as [|e tr He _ IH]; intros Hw; simpl.
  - reflexivity.
  - destruct e; simpl in *; auto.
    destruct (Z.eqb_spec window win); [|auto].
    unfold Second in He. lia.
Qed.

Lemma event_ok_quiet (Q : Z) (last : Time) (es : list Event) :
  forallb quiet es = true -> Forall (event_ok Q last) es.
Proof.
  induction es as [|e es IH]; simpl; intros H; constructor.
  - apply andb_true_iff in H as [He _]. destruct e; simpl in *;
      try discriminate; exact I.
  - apply IH. apply andb_true_iff in H as [_ H]. exact H.
Qed.

Lemma event_ok_advance (Q : Z) (last last' : Time) (tr : list Event) :
  last + Second <= last' ->
  Forall (event_ok Q last) tr -> Forall (event_ok Q last') tr.
Proof.
  intros Hl H. eapply Forall_impl; [|exact H].
  intros [win c t|win d wake| | |]; simpl; auto.
  unfold Second in *. intros (Ht & Hc & Hw). repeat split; try lia.
Qed.

Lemma In_quiet_admit (es : list Event) (win c t : Z) :
  forallb quiet es = true -> ~ In (EvAdmit win c t) es.
Proof.
  intros H Hin. rewrite forallb_forall in H. apply H in Hin. discriminate.
Qed.

Lemma spaced_quiet (tr es : list Event) :
  forallb quiet es = true -> spaced tr -> spaced (tr ++ es).
Proof.
  intros Hq Hs win c t win' c' t' H1 H2.
  apply in_app_or in H1 as [H1|H1]; [|exfalso; eapply In_quiet_admit; eauto].
  apply in_app_or in H2 as [H2|H2]; [|exfalso; eapply In_quiet_admit; eauto].
  eapply Hs; eauto.
Qed.

Lemma spaced_admit (Q : Z) (last c t : Z) (tr : list Event) :
  Forall (event_ok Q last) tr -> spaced tr ->
  spaced (tr ++ [EvAdmit last c t]).
Proof.
  intros Hok Hs win c1 t1 win' c2 t2 H1 H2.
  rewrite Forall_forall in Hok.
  apply in_app_or in H1 as [H1|[H1|[]]]; apply in_app_or in H2 as [H2|[H2|[]]].
  - eapply Hs; eauto.
  - inversion H2; subst. apply Hok in H1. simpl in H1. lia.
  - inversion H1; subst. apply Hok in H2. simpl in H2. lia.
  - inversion H1; inversion H2; subst. lia.
Qed.

Lemma spaced_sleep (win d wake : Z) (tr : list Event) :
  spaced tr -> spaced (tr ++ [EvSleep win d wake]).
Proof.
  intros Hs w1 c1 t1 w2 c2 t2 H1 H2.
  apply in_app_or in H1 as [H1|[H1|[]]]; [|discriminate H1].
  apply in_app_or in H2 as [H2|[H2|[]]]; [|discriminate H2].
  eapply Hs; eauto.
Qed.

Lemma throttle_inv_init (Q : Z) (pkg : string) (t : Time) (r : Rng)
  (l : list ExecutionLog) :
  0 <= Q ->
  throttle_inv Q (executeTask_init pkg (mkWorld t r l [])) (mkWorld t r l []).
Proof.
  intros HQ. unfold throttle_inv, executeTask_init; simpl.
  split; [lia|]. split; [reflexivity|]. split; [lia|].
  split; [constructor|]. split; [intros ? ? ? ? ? ? []|].
  intros win. unfold admissions; simpl. lia.
Qed.

Lemma throttle_preserves (Q : Z) (inp : Inputs) (w : Worker) (wd : World) :
  throttle_inv Q w wd ->
  throttle_inv Q (snd (fst (throttle Q inp w wd))) (snd (throttle Q inp w wd)).
Proof.
  intros (Hc & Ha & Hl & Hok & Hs & Hall).
  unfold throttle. rewrite Second_le_Time_Sub.
  cbn [tick now rng logs trace].
  destruct (Z.leb_spec Second (now wd + Z.of_N (dt_check inp) - lastQueryTime w))
    as [Hexp|Hexp];
    cbn [queryCount lastQueryTime packageName firstLoop now trace].
  - (* the window is over: reset *)
    set (last' := now wd + Z.of_N (dt_check inp) + Z.of_N (dt_reset inp)).
    assert (Hadv : lastQueryTime w + Second <= last') by (unfold last'; lia).
    assert (Hok' : Forall (event_ok Q last') (trace wd))
      by (eapply event_ok_advance; eauto).
    assert (Hz : admissions last' (trace wd) = 0)
      by (eapply admissions_later; [exact Hok|unfold Second in *; lia]).
    destruct (Z.leb_spec Q 0) as [HQ|HQ];
      unfold throttle_inv, time_Sleep, emit, tick;
      cbn [fst snd queryCount lastQueryTime now trace]; fold last'.
    + repeat split; try lia.
      * rewrite admissions_app, Hz. reflexivity.
      * apply Forall_app; split; [exact Hok'|].
        constructor; [|constructor]. simpl.
        unfold Time_Sub, Time_Add, saturate, minDuration, maxDuration.
        change (2 ^ 63) with 9223372036854775808. unfold Second. lia.
      * apply spaced_sleep; exact Hs.
      * intros win. rewrite admissions_app.
        replace (admissions win [_]) with 0 by reflexivity.
        specialize (Hall win). lia.
    + repeat split; try lia.
      * rewrite admissions_app, Hz. unfold admissions; simpl.
        rewrite Z.eqb_refl. reflexivity.
      * apply Forall_app; split; [exact Hok'|].
        constructor; [|constructor]. simpl. unfold Second. lia.
      * eapply spaced_admit; eauto.
      * intros win. rewrite admissions_app. unfold admissions at 2; simpl.
        destruct (Z.eqb_spec last' win) as [->|Hne]; simpl.
        -- rewrite Hz. lia.
        -- specialize (Hall win). lia.
  - (* the window is still open *)
    destruct (Z.leb_spec Q (queryCount w)) as [HQ|HQ];
      unfold throttle_inv, time_Sleep, emit, tick;
      cbn [fst snd queryCount lastQueryTime now trace].
    + repeat split; try lia.
      * rewrite admissions_app, Ha. unfold admissions; simpl. lia.
      * apply Forall_app; split; [exact Hok|].
        constructor; [|constructor]. simpl.
        unfold Time_Sub, Time_Add, saturate, minDuration, maxDuration.
        change (2 ^ 63) with 9223372036854775808. unfold Second in *. lia.
      * apply spaced_sleep; exact Hs.
      * intros win. rewrite admissions_app.
        replace (admissions win [_]) with 0 by reflexivity.
        specialize (Hall win). lia.
    + repeat split; try lia.
      * rewrite admissions_app, Ha. unfold admissions; simpl.
        rewrite Z.eqb_refl. simpl. lia.
      * apply Forall_app; split; [exact Hok|].
        constructor; [|constructor]. simpl. unfold Second in *. lia.
      * eapply spaced_admit; eauto.
      * intros win. rewrite admissions_app. unfold admissions at 2; simpl.
        destruct (Z.eqb_spec (lastQueryTime w) win) as [<-|Hne]; simpl.
        -- rewrite Ha. lia.
        -- specialize (Hall win). lia.
Qed.

(** ** What any operation does to the worker and to the world *)

Lemma operation_frame (cfg : Config) (inp : Inputs) (w w' : Worker)
  (wd wd' : World) :
  operation cfg inp w wd = Ok (w', wd') ->
  queryCount w' = queryCount w
  /\ lastQueryTime w' = lastQueryTime w
  /\ now wd <= now wd'
  /\ exists es x,
       trace wd' = (trace wd ++ es)%list
       /\ forallb quiet es = true
       /\ logs wd' = (logs wd ++ [x])%list
       /\ filter is_append es = [EvAppend x]
       /\ Forall (fed (password cfg)) es.
Proof.
  unfold operation.
  destruct (if is_composite cfg && is_empty (packageName w)
            then randomString MaxPackageLength (rng wd)
            else Ok (packageName w, rng wd)) as [[pkg r]|] eqn:E1;
    [|discriminate].
  unfold bind at 1.
  destruct (generateCommand _ pkg _ _ _ _ _ r) as [[cmdStr r1]|] eqn:E2;
    [|discriminate].
  unfold bind at 1.
  unfold run_command, executeCommand, print_if, emit, emit_all, tick, set_rng.
  cbn [now rng logs trace fst snd].
  destruct (is_composite cfg).
  - destruct (firstLoop w), (run_err (run1 inp));
      cbn [now rng logs trace];
      (destruct (generateCommand "call" pkg _ _ _ _ _ r1)
        as [[cmdStr2 r2]|] eqn:E3; [|discriminate]);
      cbn [bind now rng logs trace];
      intros H; inversion H; subst; clear H;
      cbn [queryCount lastQueryTime now trace logs];
      (split; [reflexivity|]); (split; [reflexivity|]); (split; [lia|]);
      destruct (run_err (run2 inp));
      cbn [map app]; rewrite <- ?app_assoc;
      (eexists; eexists; split; [reflexivity|];
       split; [reflexivity|]; split; [reflexivity|]; split; [reflexivity|];
       repeat first
         [ apply Forall_nil
         | apply Forall_cons;
           [first [exact I | split; [reflexivity|apply exec_Command_Stdin]]|] ]).
  - destruct (firstLoop w), (run_err (run1 inp));
      cbn [bind now rng logs trace];
      intros H; inversion H; subst; clear H;
      cbn [queryCount lastQueryTime now trace logs];
      (split; [reflexivity|]); (split; [reflexivity|]); (split; [lia|]);
      cbn [map app]; rewrite <- ?app_assoc;
      (eexists; eexists; split; [reflexivity|];
       split; [reflexivity|]; split; [reflexivity|]; split; [reflexivity|];
       repeat first
         [ apply Forall_nil
         | apply Forall_cons;
           [first [exact I | split; [reflexivity|apply exec_Command_Stdin]]|] ]).
Qed.

Lemma operation_preserves (cfg : Config) (inp : Inputs) (w w' : Worker)
  (wd wd' : World) :
  operation cfg inp w wd = Ok (w', wd') ->
  throttle_inv (maxQPS cfg) w wd -> throttle_inv (maxQPS cfg) w' wd'.
Proof.
  intros Hop (Hc & Ha & Hl & Hok & Hs & Hall).
  apply operation_frame in Hop
    as (Eq & El & Hn & es & x & Et & Hq & _ & _ & _).
  unfold throttle_inv. rewrite Eq, El, Et.
  split; [exact Hc|].
  split; [rewrite admissions_app, (admissions_quiet _ _ Hq); lia|].
  split; [lia|].
  split; [apply Forall_app; split; [exact Hok|apply event_ok_quiet; exact Hq]|].
  split; [apply spaced_quiet; assumption|].
  intros win. rewrite admissions_app, (admissions_quiet _ _ Hq).
  specialize (Hall win). lia.
Qed.

Lemma iteration_preserves (cfg : Config) (inp : Inputs) (w w' : Worker)
  (wd wd' : World) :
  iteration cfg inp w wd = Ok (w', wd') ->
  throttle_inv (maxQPS cfg) w wd -> throttle_inv (maxQPS cfg) w' wd'.
Proof.
  unfold iteration. intros Hit Hinv.
  pose proof (throttle_preserves (maxQPS cfg) inp w wd Hinv) as Ht.
  destruct (throttle (maxQPS cfg) inp w wd) as [[[|] w1] wd1];
    cbn [fst snd] in Ht.
  - eapply operation_preserves; eauto.
  - inversion Hit; subst. exact Ht.
Qed.

Lemma executeTask_loop_preserves (cfg : Config) (inputs : list Inputs) :
  forall w wd,
    throttle_inv (maxQPS cfg) w wd ->
    throttle_inv (maxQPS cfg)
                 (fst (fst (executeTask_loop cfg inputs w wd)))
                 (snd (fst (executeTask_loop cfg inputs w wd))).
Proof.
  induction inputs as [|inp rest IH]; intros w wd Hinv; simpl.
  - exact Hinv.
  - destruct (iteration cfg inp w wd) as [[w1 wd1]|msg] eqn:E.
    + apply IH. eapply iteration_preserves; eauto.
    + exact Hinv.
Qed.

(** Inside a throttle window every admission is one of the window's own:
    counting by clock reading and counting by window agree. *)
Lemma during_is_in (Q : Z) (last win c t : Z) (tr : list Event) :
  Forall (event_ok Q last) tr -> spaced tr ->
  In (EvAdmit win c t) tr ->
  filter (admitted_during win) tr = filter (admitted_in win) tr.
Proof.
  intros Hok Hs Hin. apply filter_ext_in.
  intros [win' c' t'|?|?|?|?] He; try reflexivity.
  simpl. rewrite Forall_forall in Hok.
  pose proof (Hok _ He) as (Ht' & _). simpl in Ht'.
  specialize (Hs _ _ _ _ _ _ Hin He).
  unfold Second in *.
  destruct (Z.eqb_spec win' win) as [->|Hne].
  - apply andb_true_iff; split; [apply Z.leb_le|apply Z.ltb_lt]; lia.
  - apply andb_false_iff.
    destruct Hs as [Hs|[Hs|Hs]]; [congruence| |].
    + right. apply Z.ltb_ge. lia.
    + left. apply Z.leb_gt. lia.
Qed.

(** The three ways through lines 177-185. *)

Lemma throttle_open_admits (Q : Z) (inp : Inputs) (w : Worker) (wd : World) :
  now wd + Z.of_N (dt_check inp) - lastQueryTime w < Second ->
  queryCount w < Q ->
  throttle Q inp w wd
  = (Admit,
     mkWorker (queryCount w + 1) (lastQueryTime w) (packageName w) (firstLoop w),
     emit (EvAdmit (lastQueryTime w) (queryCount w + 1)
                   (now wd + Z.of_N (dt_check inp)))
          (tick (dt_check inp) wd)).
Proof.
  intros Hopen Hc. unfold throttle. rewrite Second_le_Time_Sub.
  cbn [tick now].
  destruct (Z.leb_spec Second (now wd + Z.of_N (dt_check inp) - lastQueryTime w));
    [lia|].
  destruct (Z.leb_spec Q (queryCount w)); [lia|]. reflexivity.
Qed.

Lemma throttle_full_defers (Q : Z) (inp : Inputs) (w : Worker) (wd : World) :
  lastQueryTime w <= now wd ->
  now wd + Z.of_N (dt_check inp) - lastQueryTime w < Second ->
  Q <= queryCount w ->
  exists d wake,
    throttle Q inp w wd
    = (Defer, w,
       mkWorld wake (rng wd) (logs wd)
               (trace wd ++ [EvSleep (lastQueryTime w) d wake])%list)
    /\ lastQueryTime w + Second <= wake.
Proof.
  intros Hl Hopen Hc. unfold throttle. rewrite Second_le_Time_Sub.
  cbn [tick now].
  destruct (Z.leb_spec Second (now wd + Z.of_N (dt_check inp) - lastQueryTime w));
    [lia|].
  destruct (Z.leb_spec Q (queryCount w)); [|lia].
  unfold time_Sleep, emit, tick. cbn [now rng logs trace].
  eexists; eexists; split; [reflexivity|].
  unfold Time_Sub, Time_Add, saturate, minDuration, maxDuration.
  change (2 ^ 63) with 9223372036854775808. unfold Second in *. lia.
Qed.

Lemma throttle_expired_resets (Q : Z) (inp : Inputs) (w : Worker) (wd : World) :
  1 <= Q ->
  lastQueryTime w + Second <= now wd ->
  let t := now wd + Z.of_N (dt_check inp) + Z.of_N (dt_reset inp) in
  throttle Q inp w wd
  = (Admit,
     mkWorker 1 t (packageName w) (firstLoop w),
     mkWorld t (rng wd) (logs wd) (trace wd ++ [EvAdmit t 1 t])%list).
Proof.
  intros HQ Hexp. cbv zeta. unfold throttle. rewrite Second_le_Time_Sub.
  cbn [tick now].
  destruct (Z.leb_spec Second (now wd + Z.of_N (dt_check inp) - lastQueryTime w));
    [|lia].
  cbn [queryCount lastQueryTime packageName firstLoop now rng logs trace].
  destruct (Z.leb_spec Q 0); [lia|]. reflexivity.
Qed.

Lemma length_filter_le {A : Type} (f g : A -> bool) (l : list A) :
  (forall x, In x l -> f x = true -> g x = true) ->
  (List.length (filter f l) <= List.length (filter g l))%nat.
Proof.
  induction l as [|a l IH]; intros H; simpl; [lia|].
  assert (IH' : (List.length (filter f l) <= List.length (filter g l))%nat)
    by (apply IH; intros x Hx; apply H; right; exact Hx).
  destruct (f a) eqn:Ef.
  - rewrite (H a (or_introl eq_refl) Ef). simpl. lia.
  - destruct (g a); simpl; lia.
Qed.

Lemma length_filter_split {A : Type} (f p : A -> bool) (l : list A) :
  List.length (filter f l)
  = (List.length (filter (fun x => f x && p x) l)
     + List.length (filter (fun x => f x && negb (p x)) l))%nat.
Proof.
  induction l as [|a l IH]; simpl; [reflexivity|].
  destruct (f a), (p a); simpl; lia.
Qed.

(** Admissions that all belong to one window are at most [Q]. *)
Lemma one_window_cap (Q : Z) (g : Event -> bool) (tr : list Event) :
  0 <= Q ->
  (forall win, admissions win tr <= Q) ->
  (forall e, In e tr -> g e = true -> exists win c t, e = EvAdmit win c t) ->
  (forall win c t win' c' t',
      In (EvAdmit win c t) tr -> g (EvAdmit win c t) = true ->
      In (EvAdmit win' c' t') tr -> g (EvAdmit win' c' t') = true ->
      win = win') ->
  Z.of_nat (List.length (filter g tr)) <= Q.
Proof.
  intros HQ Hall Hadm Hsame.
  destruct (filter g tr) as [|e0 rest] eqn:E; [simpl; lia|].
  assert (H0 : In e0 (filter g tr)) by (rewrite E; left; reflexivity).
  apply filter_In in H0 as [Hin0 Hg0].
  destruct (Hadm _ Hin0 Hg0) as (w0 & c0 & t0 & ->).
  rewrite <- E.
  specialize (Hall w0). unfold admissions in Hall.
  assert (Hle : (List.length (filter g tr)
                 <= List.length (filter (admitted_in w0) tr))%nat).
  { apply length_filter_le. intros e He Hge.
    destruct (Hadm _ He Hge) as (w & c & t & ->). simpl.
    apply Z.eqb_eq. eapply Hsame; eauto. }
  lia.
Qed.

(** In any second at all, the admissions belong to at most two throttle
    windows: one that began before the second and one that began in it. *)
Lemma any_second_two_windows (Q : Z) (last s : Time) (tr : list Event) :
  0 <= Q ->
  Forall (event_ok Q last) tr -> spaced tr ->
  (forall win, admissions win tr <= Q) ->
  Z.of_nat (List.length (filter (admitted_during s) tr)) <= 2 * Q.
Proof.
  intros HQ Hok Hs Hall.
  rewrite (length_filter_split (admitted_during s) (early_window s)).
  rewrite Forall_forall in Hok.
  assert (H1 : Z.of_nat (List.length
                 (filter (fun x => admitted_during s x && early_window s x) tr))
               <= Q).
  { apply one_window_cap; [exact HQ|exact Hall| |].
    - intros [win c t|?|?|?|?] _ Hg; try discriminate Hg. eauto.
    - intros win c t win' c' t' Hi Hg Hi' Hg'.
      apply andb_true_iff in Hg as [Hd He].
      apply andb_true_iff in Hg' as [Hd' He'].
      simpl in Hd, He, Hd', He'.
      apply andb_true_iff in Hd as [Ha Hb].
      apply andb_true_iff in Hd' as [Ha' Hb'].
      apply Z.leb_le in Ha, Ha'. apply Z.ltb_lt in Hb, Hb', He, He'.
      pose proof (Hok _ Hi) as (Ht & _).
      pose proof (Hok _ Hi') as (Ht' & _).
      specialize (Hs _ _ _ _ _ _ Hi Hi'). unfold Second in *. lia. }
  assert (H2 : Z.of_nat (List.length
                 (filter (fun x => admitted_during s x && negb (early_window s x)) tr))
               <= Q).
  { apply one_window_cap; [exact HQ|exact Hall| |].
    - intros [win c t|?|?|?|?] _ Hg; try discriminate Hg. eauto.
    - intros win c t win' c' t' Hi Hg Hi' Hg'.
      apply andb_true_iff in Hg as [Hd He].
      apply andb_true_iff in Hg' as [Hd' He'].
      simpl in Hd, He, Hd', He'.
      apply andb_true_iff in Hd as [Ha Hb].
      apply andb_true_iff in Hd' as [Ha' Hb'].
      apply negb_true_iff in He, He'.
      apply Z.leb_le in Ha, Ha'. apply Z.ltb_lt in Hb, Hb'.
      apply Z.ltb_ge in He, He'.
      pose proof (Hok _ Hi) as (Ht & _).
      pose proof (Hok _ Hi') as (Ht' & _).
      specialize (Hs _ _ _ _ _ _ Hi Hi'). unfold Second in *. lia. }
  lia.
Qed.

(** C1, as amended.  A worker whose rate cap is [Q >= 1], run for any
    number of turns of its loop on any inputs:
    - no throttle window has more than [Q] operations admitted in it,
      whether the operations are counted by the window they were
      admitted under or by the clock reading at their admission falling
      in the second that starts with the window;
    - a second that starts at any other time [s] has at most [2 * Q]
      operations admitted in it (those of the window that began before
      [s] and those of the window that began in it);
    - while the window is open and fewer than [Q] operations were
      admitted in it, the next attempt is admitted (so exactly [Q] are
      allowed);
    - with [Q] admitted and the window open, the attempt is not admitted:
      the worker sleeps and wakes no earlier than the start of the window
      plus one second, nothing else changed; the turn that follows sets
      the count to 0 and the start of the window to the time it reads,
      and admits the deferred attempt as the first of the new window. *)
Theorem throttle_window_cap (cfg : Config) (pkg : string)
  (inputs : list Inputs) (t0 : Time) (r0 : Rng) (l0 : list ExecutionLog)
  (HQ : 1 <= maxQPS cfg) :
  let Q := maxQPS cfg in
  let run := executeTask cfg pkg inputs (mkWorld t0 r0 l0 []) in
  let tr := trace (snd (fst run)) in
  (forall win, admissions win tr <= Q)
  /\ (forall win c t,
        In (EvAdmit win c t) tr ->
        win <= t < win + Second
        /\ 1 <= c <= Q
        /\ Z.of_nat (List.length (filter (admitted_during win) tr)) <= Q)
  /\ (forall s, Z.of_nat (List.length (filter (admitted_during s) tr)) <= 2 * Q)
  /\ (forall win d wake, In (EvSleep win d wake) tr -> win + Second <= wake)
  /\ 0 <= queryCount (fst (fst run)) <= Q
  /\ (forall inp w wd,
        now wd + Z.of_N (dt_check inp) - lastQueryTime w < Second ->
        queryCount w < Q ->
        throttle Q inp w wd
        = (Admit,
           mkWorker (queryCount w + 1) (lastQueryTime w)
                    (packageName w) (firstLoop w),
           emit (EvAdmit (lastQueryTime w) (queryCount w + 1)
                         (now wd + Z.of_N (dt_check inp)))
                (tick (dt_check inp) wd)))
  /\ (forall inp w wd,
        lastQueryTime w <= now wd ->
        now wd + Z.of_N (dt_check inp) - lastQueryTime w < Second ->
        Q <= queryCount w ->
        exists d wake,
          throttle Q inp w wd
          = (Defer, w,
             mkWorld wake (rng wd) (logs wd)
                     (trace wd ++ [EvSleep (lastQueryTime w) d wake])%list)
          /\ lastQueryTime w + Second <= wake
          /\ forall inp' wd',
               now wd' = wake ->
               let t := wake + Z.of_N (dt_check inp') + Z.of_N (dt_reset inp') in
               throttle Q inp' w wd'
               = (Admit,
                  mkWorker 1 t (packageName w) (firstLoop w),
                  mkWorld t (rng wd') (logs wd')
                          (trace wd' ++ [EvAdmit t 1 t])%list)).
Proof.
  cbv zeta.
  pose proof (executeTask_loop_preserves cfg inputs _ _
                (throttle_inv_init (maxQPS cfg) pkg t0 r0 l0 ltac:(lia)))
    as (Hc & Ha & Hl & Hok & Hs & Hall).
  fold (executeTask cfg pkg inputs (mkWorld t0 r0 l0 [])) in *.
  split; [exact Hall|].
  split.
  { intros win c t Hin.
    pose proof (proj1 (Forall_forall _ _) Hok _ Hin) as (Ht & Hcnt & _).
    split; [exact Ht|]. split; [exact Hcnt|].
    rewrite (during_is_in _ _ _ _ _ _ Hok Hs Hin). apply Hall. }
  split.
  { intros s. eapply any_second_two_windows; eauto. lia. }
  split.
  { intros win d wake Hin.
    exact (proj1 (Forall_forall _ _) Hok _ Hin). }
  split; [exact Hc|].
  split; [intros; apply throttle_open_admits; assumption|].
  intros inp w wd Hl' Hopen Hfull.
  destruct (throttle_full_defers _ inp w wd Hl' Hopen Hfull)
    as (d & wake & Heq & Hwake).
  exists d, wake. split; [exact Heq|]. split; [exact Hwake|].
  intros inp' wd' Hnow. cbv zeta. rewrite <- Hnow.
  apply throttle_expired_resets; [exact HQ|lia].
Qed.

Lemma throttle_window_cap_witness :
  1 <= maxQPS cfg_call
  /\ admissions 0
       (trace (snd (fst (executeTask cfg_call "testABC"
                                     [turn 100000000 0; turn 100000000 0;
                                      turn 100000000 0; turn 100000000 0]
                                     world0)))) <= 2.
Proof.
  assert (HQ : 1 <= maxQPS cfg_call) by (intro H; discriminate H).
  split; [exact HQ|].
  exact (proj1 (throttle_window_cap cfg_call "testABC"
                  [turn 100000000 0; turn 100000000 0;
                   turn 100000000 0; turn 100000000 0]
                  0 rng0 [] HQ) 0).
Defined.

(** With a cap of 2 and commands of a tenth of a second: two operations
    at once, the third attempt sleeps to the end of the window, and is
    admitted as the first operation of the window that starts there. *)
Example throttle_four_turns :
  filter loud
         (trace (snd (fst (executeTask cfg_call "testABC"
                                       [turn 100000000 0; turn 100000000 0;
                                        turn 100000000 0; turn 100000000 0]
                                       world0))))
  = [EvAdmit 0 1 0; EvAdmit 0 2 100000000;
     EvSleep 0 800000000 1000000000;
     EvAdmit 1000000000 1 1000000000].
Proof. vm_compute. reflexivity. Qed.

(** The cap is per throttle window, not per arbitrary second: with a cap
    of 2, a first command of 0.9 s and then quick ones, the second that
    starts at 0.9 s sees three admissions (one at the end of the first
    window and two at the start of the next). *)
Example second_across_two_windows :
  let tr := trace (snd (fst (executeTask cfg_call "testABC"
                                         [turn 900000000 0; turn 50000000 0;
                                          turn 0 0; turn 10000000 0;
                                          turn 10000000 0]
                                         world0))) in
  filter loud tr
  = [EvAdmit 0 1 0; EvAdmit 0 2 900000000;
     EvSleep 0 50000000 1000000000;
     EvAdmit 1000000000 1 1000000000; EvAdmit 1000000000 2 1010000000]
  /\ List.length (filter (admitted_during 900000000) tr) = 3%nat.
Proof. vm_compute. split; reflexivity. Qed.

(** C1, the claim as it stands fails for a rolling second: with a cap
    of 2, a worker that reaches the throttle 0.9 s after it started and
    runs commands of a millisecond has four operations admitted in the
    second that starts at 0.9 s, two at the end of its first window and
    two at the start of the next.  Twice the cap is reached. *)
Lemma rolling_second_exceeds_cap :
  let tr := trace (snd (fst (executeTask cfg_call "testABC"
                                         [late_start; turn 1000000 0;
                                          turn 1000000 0; turn 1000000 0;
                                          turn 1000000 0]
                                         world0))) in
  maxQPS cfg_call = 2
  /\ filter loud tr
     = [EvAdmit 0 1 900000000; EvAdmit 0 2 901000000;
        EvSleep 0 98000000 1000000000;
        EvAdmit 1000000000 1 1000000000; EvAdmit 1000000000 2 1001000000]
  /\ Z.of_nat (List.length (filter (admitted_during 900000000) tr)) = 4
  /\ ~ (Z.of_nat (List.length (filter (admitted_during 900000000) tr))
        <= maxQPS cfg_call).
Proof.
  vm_compute. split; [reflexivity|]. split; [reflexivity|].
  split; [reflexivity|]. intros H. apply H. reflexivity.
Qed.

(** ** The composite mode *)

Lemma append_cancel_l (s a b : string) : s ++ a = s ++ b -> a = b.
Proof.
  induction s as [|c s IH]; simpl; intros H; [exact H|].
  injection H as H. exact (IH H).
Qed.

Lemma append_length (a b : string) :
  String.length (a ++ b) = (String.length a + String.length b)%nat.
Proof. induction a as [|c a IH]; simpl; [|rewrite IH]; reflexivity. Qed.

Lemma append_cancel_r (s : string) :
  forall a b, a ++ s = b ++ s -> a = b.
Proof.
  induction a as [|c a IH]; intros [|c' b] H; simpl in H.
  - reflexivity.
  - apply (f_equal String.length) in H. simpl in H.
    rewrite append_length in H. lia.
  - apply (f_equal String.length) in H. simpl in H.
    rewrite append_length in H. lia.
  - injection H as -> H. f_equal. exact (IH _ H).
Qed.

(** The package name can be read off a command: with the other
    arguments fixed, different names give different commands. *)
Lemma addpkgCommand_inj (p q dir chain rem key : string) :
  addpkgCommand p dir chain rem key = addpkgCommand q dir chain rem key ->
  p = q.
Proof.
  unfold addpkgCommand. intros H.
  apply append_cancel_l in H. apply append_cancel_r in H. exact H.
Qed.

Lemma callCommand_inj (p q fn chain rem key : string) :
  callCommand p fn chain rem key = callCommand q fn chain rem key ->
  p = q.
Proof.
  unfold callCommand. intros H.
  apply append_cancel_l in H. apply append_cancel_r in H. exact H.
Qed.

(** C3.  In the mode [addpkg+call], every turn of the loop that runs an
    operation (whatever the state of the worker and of the world, so in
    every cycle) runs exactly two commands, first the [addpkg] command
    and then the [call] command, both built from one and the same
    package name [p].  [p] is the name the worker holds when it is not
    empty; otherwise it is made by one call of [randomString] (twenty
    draws are used, no more) and that one string serves both legs. *)
Theorem composite_legs_share_name (fn rem key dir chain : string) (Q : Z)
  (pw : string) (inp : Inputs) (w : Worker) (wd : World) :
  let cfg := composite fn rem key dir chain Q pw in
  exists p w' wd' es t0 t1 t2,
    operation cfg inp w wd = Ok (w', wd')
    /\ trace wd' = (trace wd ++ es)%list
    /\ filter is_run es
       = [EvRun (exec_Command (addpkgCommand p dir chain rem key) pw) t0 t1;
          EvRun (exec_Command
                   (callCommand p (operationName cfg) chain rem key) pw) t1 t2]
    /\ is_empty p = false
    /\ p = (if is_empty (packageName w)
            then letters (raw (rng wd)) (pos (rng wd)) 20
            else packageName w)
    /\ (if is_empty (packageName w)
        then randomString MaxPackageLength (rng wd) = Ok (p, rng wd')
        else rng wd' = rng wd).
Proof.
  cbv zeta.
  destruct (operation_composite fn rem key dir chain Q pw inp w wd)
    as (es & Hop & Hrun & _ & _).
  exists (cycle_name w wd). do 2 eexists. exists es. do 3 eexists.
  split; [exact Hop|]. split; [reflexivity|]. split; [exact Hrun|].
  split; [apply cycle_name_not_empty|]. split; [reflexivity|].
  cbn [rng]. unfold cycle_name, cycle_rng.
  destruct (is_empty (packageName w)); [apply randomString_20|reflexivity].
Qed.

(** C10.  In the mode [addpkg+call], a turn of the loop that runs an
    operation appends exactly one sample to the log, after both
    commands: its response time is the difference of two clock readings,
    the first taken when the [addpkg] command is started and the second
    taken after the [call] command has finished.  A turn as a whole
    appends that one sample, or none when the throttle defers it. *)
Theorem composite_cycle_one_sample (fn rem key dir chain : string) (Q : Z)
  (pw : string) (inp : Inputs) (w : Worker) (wd : World) :
  let cfg := composite fn rem key dir chain Q pw in
  (exists w' wd' es x c1 c2 t0 t1 t2 t3,
      operation cfg inp w wd = Ok (w', wd')
      /\ logs wd' = (logs wd ++ [x])%list
      /\ trace wd' = (trace wd ++ es)%list
      /\ filter is_append es = [EvAppend x]
      /\ filter is_run es = [EvRun c1 t0 t1; EvRun c2 t1 t2]
      /\ Args c1 = ["-c"; addpkgCommand (cycle_name w wd) dir chain rem key]
      /\ Args c2 = ["-c"; callCommand (cycle_name w wd) (operationName cfg)
                                     chain rem key]
      /\ ResponseTime x = Time_Sub t3 t0
      /\ t0 = now wd + Z.of_N (dt_start inp)
      /\ t1 = t0 + Z.of_N (run_elapsed (run1 inp))
      /\ t2 = t1 + Z.of_N (run_elapsed (run2 inp))
      /\ t3 = t2 + Z.of_N (dt_since inp)
      /\ Timestamp x = t3 + Z.of_N (dt_stamp inp))
  /\ (exists w' wd',
        iteration cfg inp w wd = Ok (w', wd')
        /\ (logs wd' = logs wd
            \/ exists x, logs wd' = (logs wd ++ [x])%list)).
Proof.
  cbv zeta. split.
  - destruct (operation_composite fn rem key dir chain Q pw inp w wd)
      as (es & Hop & Hrun & Happ & _).
    do 2 eexists. exists es. do 7 eexists.
    split; [exact Hop|]. cbn [logs trace].
    split; [reflexivity|]. split; [reflexivity|].
    split; [exact Happ|]. split; [exact Hrun|].
    repeat split.
  - unfold iteration.
    destruct (throttle _ inp w wd) as [[[|] w1] wd1] eqn:Et.
    + destruct (operation_composite fn rem key dir chain Q pw inp w1 wd1)
        as (es & Hop & _).
      do 2 eexists. split; [exact Hop|]. cbn [logs].
      right. eexists.
      assert (Hl : logs wd1 = logs wd); [|rewrite Hl; reflexivity].
      revert Et. unfold throttle, time_Sleep, emit, tick.
      repeat match goal with
             | |- context [if ?b then _ else _] => destruct b
             end; intros Et; inversion Et; subst; reflexivity.
    + do 2 eexists. split; [reflexivity|]. left.
      revert Et. unfold throttle, time_Sleep, emit, tick.
      repeat match goal with
             | |- context [if ?b then _ else _] => destruct b
             end; intros Et; inversion Et; subst; reflexivity.
Qed.


(** Two names made of twenty draws each are compared draw by draw. *)

Lemma charset_letters_distinct :
  forallb (fun i =>
             forallb (fun j =>
                        Bool.eqb
                          (match String.get i charset, String.get j charset with
                           | Some a, Some b => Ascii.eqb a b
                           | _, _ => false
                           end)
                          (Nat.eqb i j))
                     (seq 0 26))
          (seq 0 26) = true.
Proof. vm_compute. reflexivity. Qed.

Lemma letter_eqb (f : nat -> Z) (a b : nat) :
  Ascii.eqb (letter f a) (letter f b) = (f a mod 26 =? f b mod 26).
Proof.
  assert (Ha : 0 <= f a mod 26 < 26) by (apply Z.mod_pos_bound; lia).
  assert (Hb : 0 <= f b mod 26 < 26) by (apply Z.mod_pos_bound; lia).
  pose proof charset_letters_distinct as H.
  pose proof (proj1 (forallb_forall _ _) H (Z.to_nat (f a mod 26))
                ltac:(apply in_seq; lia)) as H1.
  pose proof (proj1 (forallb_forall _ _) H1 (Z.to_nat (f b mod 26))
                ltac:(apply in_seq; lia)) as H2.
  clear H H1. rename H2 into H. cbv beta in H.
  unfold letter.
  destruct (charset_get (Z.to_nat (f a mod 26))) as (ca & Hca & _); [lia|].
  destruct (charset_get (Z.to_nat (f b mod 26))) as (cb & Hcb & _); [lia|].
  rewrite Hca, Hcb in *. apply Bool.eqb_prop in H. rewrite H.
  destruct (Nat.eqb_spec (Z.to_nat (f a mod 26)) (Z.to_nat (f b mod 26)));
    symmetry; [apply Z.eqb_eq|apply Z.eqb_neq]; lia.
Qed.

Lemma forallb_seq_shift (P : nat -> bool) (n : nat) :
  forall a, forallb P (seq (S a) n) = forallb (fun i => P (S i)) (seq a n).
Proof.
  induction n as [|n IH]; intros a; simpl; [reflexivity|].
  rewrite IH. reflexivity.
Qed.

Lemma forallb_pointwise (P Q : nat -> bool) (l : list nat) :
  (forall i, P i = Q i) -> forallb P l = forallb Q l.
Proof.
  intros HPQ. induction l as [|a l IH]; simpl; [|rewrite HPQ, IH]; reflexivity.
Qed.

Lemma letters_eqb (f : nat -> Z) (n : nat) :
  forall k k',
    (letters f k n =? letters f k' n)%string = same_draws f k k' n.
Proof.
  unfold same_draws.
  induction n as [|n IH]; intros k k'; [reflexivity|].
  cbn [letters seq forallb]. rewrite !Nat.add_0_r.
  rewrite forallb_seq_shift.
  simpl String.eqb. rewrite letter_eqb, IH.
  destruct (f k mod 26 =? f k' mod 26); [|reflexivity]. simpl.
  apply forallb_pointwise. intros i. rewrite !Nat.add_succ_r. reflexivity.
Qed.



(** ** saveLogs *)

Lemma append_nil_r (s : string) : s ++ EmptyString = s.
Proof. induction s as [|c s IH]; simpl; [|rewrite IH]; reflexivity. Qed.

Lemma append_assoc (a b c : string) : (a ++ b) ++ c = a ++ (b ++ c).
Proof. induction a as [|x a IH]; simpl; [|rewrite IH]; reflexivity. Qed.

Lemma substring_0_all (s : string) :
  forall k, (String.length s <= k)%nat -> substring 0 k s = s.
Proof.
  induction s as [|c s IH]; intros [|k] Hk; simpl in *; try reflexivity.
  - lia.
  - rewrite IH by lia. reflexivity.
Qed.

Lemma substring_0_app_le (a b : string) :
  forall k, (k <= String.length a)%nat ->
            substring 0 k (a ++ b) = substring 0 k a.
Proof.
  induction a as [|c a IH]; intros [|k] Hk; simpl in *; try reflexivity.
  - destruct b; reflexivity.
  - lia.
  - rewrite IH by lia. reflexivity.
Qed.

Lemma substring_0_app_ge (a b : string) :
  forall k, (String.length a <= k)%nat ->
            substring 0 k (a ++ b)
            = a ++ substring 0 (k - String.length a) b.
Proof.
  induction a as [|c a IH]; intros k Hk; simpl in *.
  - rewrite Nat.sub_0_r. reflexivity.
  - destruct k as [|k]; [lia|]. simpl. rewrite IH by lia. reflexivity.
Qed.

Lemma substring_0_length (s : string) :
  forall k, (k <= String.length s)%nat ->
            String.length (substring 0 k s) = k.
Proof.
  induction s as [|c s IH]; intros [|k] Hk; simpl in *; try reflexivity.
  - lia.
  - rewrite IH by lia. reflexivity.
Qed.

Section Persister.
Context `{Library}.

Lemma writer_inv_init (d : Disk) :
  writer_inv (room d) EmptyString (csv_NewWriter d).
Proof.
  unfold writer_inv, csv_NewWriter; simpl.
  destruct (room d) as [k|]; simpl; repeat split.
  rewrite Nat.sub_0_r. reflexivity.
Qed.

Lemma writer_inv_Write (room : option nat) (T : string) (wr : Writer)
  (record : list string) :
  writer_inv room T wr ->
  writer_inv room (T ++ csv_record record) (csv_Write record wr).
Proof.
  unfold writer_inv, csv_Write.
  destruct (failed wr) eqn:Ef; rewrite ?Ef; cbn [failed written buffered room_left].
  - intros [Hfit Hw]. destruct room as [k|]; simpl in *; [|discriminate].
    apply Nat.leb_gt in Hfit. split.
    + apply Nat.leb_gt. rewrite append_length. lia.
    + rewrite Hw. symmetry. apply substring_0_app_le. lia.
  - intros (HT & Hfit & Hr). subst T. rewrite append_assoc.
    repeat split; assumption.
Qed.

Lemma writer_inv_Flush (room : option nat) (T : string) (wr : Writer) :
  writer_inv room T wr -> writer_inv room T (csv_Flush wr).
Proof.
  unfold writer_inv, csv_Flush.
  destruct (failed wr) eqn:Ef; rewrite ?Ef; [trivial|].
  intros (HT & Hfit & Hr). subst T. rewrite Hr.
  destruct room as [k|]; simpl in *.
  - apply Nat.leb_le in Hfit.
    destruct (Nat.leb_spec (String.length (buffered wr))
                           (k - String.length (written wr))) as [Hn|Hn];
      cbn [failed written buffered room_left].
    + rewrite !append_nil_r, append_length.
      repeat split; [apply Nat.leb_le; lia | f_equal; lia].
    + split; [apply Nat.leb_gt; rewrite append_length; lia|].
      symmetry. apply substring_0_app_ge. exact Hfit.
  - rewrite !append_nil_r. repeat split.
Qed.

Lemma writer_inv_rows (room : option nat) (logs : list ExecutionLog) :
  forall T wr,
    writer_inv room T wr ->
    writer_inv room
      (T ++ String.concat EmptyString (map (fun x => csv_record (row x)) logs))
      (fold_left (fun wr log => csv_Flush (csv_Write (row log) wr)) logs wr).
Proof.
  induction logs as [|x rest IH]; intros T wr Hinv.
  - simpl. rewrite append_nil_r. exact Hinv.
  - cbn [fold_left map].
    replace (String.concat EmptyString
               (csv_record (row x)
                :: map (fun x0 => csv_record (row x0)) rest))
      with (csv_record (row x)
            ++ String.concat EmptyString
                 (map (fun x0 => csv_record (row x0)) rest)).
    + rewrite <- append_assoc. apply IH.
      apply writer_inv_Flush, writer_inv_Write, Hinv.
    + destruct rest; simpl; [rewrite append_nil_r|]; reflexivity.
Qed.

(** The file after [saveLogs]: everything the disk let through of the
    text of the log. *)
Lemma saveLogs_writer_spec (logs : list ExecutionLog) (d : Disk) :
  written (saveLogs_writer logs d) = accepted (room d) (csv_text logs)
  /\ failed (saveLogs_writer logs d) = negb (fits (room d) (csv_text logs)).
Proof.
  assert (Hinv : writer_inv (room d) (csv_text logs) (saveLogs_writer logs d)).
  { unfold saveLogs_writer, csv_text.
    apply writer_inv_Flush, writer_inv_rows.
    apply (writer_inv_Write _ EmptyString), writer_inv_init. }
  assert (Hb : failed (saveLogs_writer logs d) = false ->
               buffered (saveLogs_writer logs d) = EmptyString).
  { unfold saveLogs_writer.
    set (wr := fold_left _ logs _). unfold csv_Flush.
    destruct (failed wr) eqn:Ef; [intros; rewrite Ef in *; discriminate|].
    destruct (room_left wr) as [k|]; [|reflexivity].
    destruct (_ <=? _)%nat; reflexivity. }
  unfold writer_inv in Hinv.
  destruct (failed (saveLogs_writer logs d)).
  - destruct Hinv as [Hfit Hw]. rewrite Hfit. split; [exact Hw|reflexivity].
  - destruct Hinv as (HT & Hfit & _). rewrite Hb, append_nil_r in HT by reflexivity.
    rewrite <- HT in Hfit. rewrite Hfit. split; [|reflexivity].
    rewrite <- HT. unfold accepted.
    destruct (room d) as [k|]; [|reflexivity].
    unfold fits in Hfit. apply Nat.leb_le in Hfit.
    symmetry. apply substring_0_all. exact Hfit.
Qed.

End Persister.

Section PersisterClaims.
Context `{Library}.








(** C7, amended.  A failure to create the file is reported on the
    console and [saveLogs] returns with the files as they were.  When
    the file is created, [saveLogs] returns whether or not a write
    fails, and the file holds what the disk accepted of the text: its
    first bytes up to the failure, all of it when nothing fails. *)
Theorem saveLogs_survives_errors (logs : list ExecutionLog) (d : Disk)
  (fs : FS) :
  (forall e,
      create_err d = Some e ->
      saveLogs logs d fs = (fs, [MsgCreateFailed e]))
  /\ (create_err d = None ->
      exists out,
        saveLogs logs d fs
        = (fs_put fs csvFile (accepted (room d) (csv_text logs)), out))
  /\ failed (saveLogs_writer logs d) = negb (fits (room d) (csv_text logs))
  /\ (fits (room d) (csv_text logs) = true ->
      accepted (room d) (csv_text logs) = csv_text logs).
Proof.
  destruct (saveLogs_writer_spec logs d) as [Hw Hf].
  split; [intros e He; unfold saveLogs; rewrite He; reflexivity|].
  split.
  { intros Hc. unfold saveLogs. rewrite Hc, Hw. eexists. reflexivity. }
  split; [exact Hf|].
  unfold accepted, fits. destruct (room d) as [k|]; [|reflexivity].
  intros Hk. apply Nat.leb_le in Hk. apply substring_0_all. exact Hk.
Qed.

End PersisterClaims.


(** C7, the claim as it stands fails: on a disk that is full after ten
    bytes the writes fail, the file is left with the first ten bytes of
    the header, and nothing is printed. *)
Lemma write_failure_not_reported :
  @persistence_error sample_library logs2 full_disk = true
  /\ reported (snd (@saveLogs sample_library logs2 full_disk no_files)) = false
  /\ fst (@saveLogs sample_library logs2 full_disk no_files) csvFile
     = Some "Timestamp,".
Proof. vm_compute. repeat split. Qed.

Lemma saveLogs_survives_errors_witness :
  create_err full_disk = None
  /\ exists out,
       @saveLogs sample_library logs2 full_disk no_files
       = (fs_put no_files csvFile
                 (accepted (room full_disk) (@csv_text sample_library logs2)),
          out).
Proof.
  split; [reflexivity|].
  exact (proj1 (proj2 (@saveLogs_survives_errors sample_library logs2
                         full_disk no_files)) eq_refl).
Defined.

(** ** The spawn loop *)

Lemma pool_inv_init (maxThreads : Z) (p : Pool) :
  pool_init maxThreads = Ok p -> pool_inv p /\ sem_cap p = maxThreads.
Proof.
  unfold pool_init. destruct (Z.ltb_spec maxThreads 0); [discriminate|].
  intros E. inversion E; subst. unfold pool_inv, pending; simpl. lia.
Qed.

Lemma pool_step_inv (p p' : Pool) (a : PoolAction) :
  pool_step p a = Some p' ->
  pool_inv p -> pool_inv p' /\ sem_cap p' = sem_cap p.
Proof.
  unfold pool_inv, pool_step, pending.
  destruct a, (main_pc p) eqn:Epc; try discriminate;
    repeat match goal with
           | |- context [if ?b then _ else _] => destruct b eqn:?
           end; try discriminate;
    intros E; inversion E; subst; clear E; cbn;
    repeat match goal with
           | H : (_ && _) = true |- _ => apply andb_true_iff in H as [? ?]
           | H : (_ <? _) = true |- _ => apply Z.ltb_lt in H
           | H : (_ =? _) = true |- _ => apply Z.eqb_eq in H
           end; rewrite ?Epc; lia.
Qed.

Lemma pool_run_inv (sched : list PoolAction) :
  forall p p',
    pool_run sched p = Some p' ->
    pool_inv p -> pool_inv p' /\ sem_cap p' = sem_cap p.
Proof.
  induction sched as [|a rest IH]; intros p p' Hrun Hinv; simpl in Hrun.
  - inversion Hrun; subst. split; [exact Hinv|reflexivity].
  - destruct (pool_step p a) as [p1|] eqn:E; [|discriminate].
    destruct (pool_step_inv _ _ _ E Hinv) as [H1 Hc1].
    destruct (IH _ _ Hrun H1) as [H2 Hc2].
    split; [exact H2|congruence].
Qed.

(** C5.  From the start of [main] and along every schedule of its
    goroutines, the goroutines that are inside [executeTask] are never
    more than [maxThreads]; together with those on their way out and
    with the one that [main] is about to start (at most one, [main]
    being a single loop) they are as many as the tokens in [sem], hence
    at most [maxThreads].  Once [sem] is full, the send of [main] is not
    enabled: no further goroutine is started until one has left.  This
    does not depend on how long the tasks take (no step of a task
    appears in the statement). *)
Theorem pool_bounded (maxThreads : Z) (sched : list PoolAction) (p0 p : Pool)
  (Hinit : pool_init maxThreads = Ok p0)
  (Hrun : pool_run sched p0 = Some p) :
  0 <= in_loop p <= maxThreads
  /\ 0 <= pending p <= 1
  /\ in_loop p + leaving p + pending p = sem_len p
  /\ sem_len p <= maxThreads
  /\ (in_loop p = maxThreads ->
      pool_step p PSend = None /\ pool_step p PHandoff = None
      /\ pool_step p PGo = None).
Proof.
  destruct (pool_inv_init _ _ Hinit) as [Hinv0 Hcap0].
  destruct (pool_run_inv _ _ _ Hrun Hinv0) as [(Hlen & Hsum & Hi & Hl & Hf) Hcap].
  rewrite Hcap0 in Hcap. rewrite Hcap in Hlen.
  assert (Hp : 0 <= pending p <= 1)
    by (unfold pending; destruct (main_pc p); lia).
  repeat split; try lia.
  - unfold pool_step. destruct (main_pc p) eqn:Epc; try reflexivity.
    destruct (Z.ltb_spec (sem_len p) (sem_cap p)); [|reflexivity].
    unfold pending in *. rewrite Epc in *. lia.
  - unfold pool_step. destruct (main_pc p) eqn:Epc; try reflexivity.
    destruct (Z.eqb_spec (sem_len p) 0); simpl; [|reflexivity].
    destruct (Z.ltb_spec 0 (leaving p)); [|reflexivity].
    unfold pending in *. rewrite Epc in *. lia.
  - unfold pool_step. destruct (main_pc p) eqn:Epc; try reflexivity.
    unfold pending in *. rewrite Epc in *. lia.
Qed.

Lemma pool_bounded_witness :
  pool_init 2 = Ok (mkPool 2 0 AtSend 0 0 0 0)
  /\ pool_run [PSend; PAdd; PGo; PSend; PAdd; PGo] (mkPool 2 0 AtSend 0 0 0 0)
     = Some (mkPool 2 2 AtSend 2 2 0 0)
  /\ 0 <= in_loop (mkPool 2 2 AtSend 2 2 0 0) <= 2.
Proof.
  split; [reflexivity|]. split; [reflexivity|].
  exact (proj1 (pool_bounded 2 [PSend; PAdd; PGo; PSend; PAdd; PGo]
                  (mkPool 2 0 AtSend 0 0 0 0) (mkPool 2 2 AtSend 2 2 0 0)
                  eq_refl eq_refl)).
Defined.

(** A negative [maxThreads] stops [main] before any goroutine exists. *)
Example pool_init_negative : pool_init (-1) = Panic "makechan: size out of range".
Proof. reflexivity. Qed.

(** ** The signal handler *)

Section Shutdown.
Context `{Library}.



(** The handler's call of [saveLogs] is enabled whoever holds
    [logMutex], and leaves the mutex as it was: the handler neither
    waits for it nor takes it. *)
Lemma HSave_whatever_mutex (p : Process) (d : Disk) :
  handler p = Announced ->
  exists p',
    process_step p (HSave d) = Some p'
    /\ logMutex p' = logMutex p
    /\ flushes p' = (flushes p ++ [mkFlush (shared_logs p) (logMutex p)])%list.
Proof.
  intros Hh. unfold process_step, alive. rewrite Hh. cbn [negb].
  destruct (saveLogs (shared_logs p) d (files p)) as [fs msgs].
  eexists. split; [reflexivity|]. split; reflexivity.
Qed.

End Shutdown.

(** C2, what the code does: a stop signal arrives while worker 0 holds
    [logMutex] for its second sample.  The handler calls [saveLogs]
    without taking the mutex: the one flush it performs runs while the
    mutex is held by the worker, and the process exits with the worker
    still inside its critical section. *)
Theorem shutdown_flush_ignores_mutex :
  exists p,
    @process_run sample_library signal_during_append (process_init no_files)
    = Some p
    /\ handler p = Exited
    /\ flushes p = [mkFlush [mkExecutionLog 100 100] (Some 0%nat)]
    /\ forallb serialized (flushes p) = false
    /\ logMutex p = Some 0%nat
    /\ appending p 0%nat = Locked sample_x
    /\ files p csvFile
       = Some ("Timestamp,ResponseTime" ++ newline ++ "100,100" ++ newline).
Proof.
  eexists. split; [vm_compute; reflexivity|].
  cbn [handler flushes logMutex appending files].
  repeat split.
Qed.

(** ** The standard input of the commands *)

Lemma throttle_fed (pw : string) (Q : Z) (inp : Inputs) (w : Worker)
  (wd : World) :
  Forall (fed pw) (trace wd) ->
  Forall (fed pw) (trace (snd (throttle Q inp w wd))).
Proof.
  intros Hf. unfold throttle, time_Sleep, emit, tick.
  repeat match goal with
         | |- context [if ?b then _ else _] => destruct b
         end; cbn [snd trace];
    (apply Forall_app; split; [exact Hf|repeat constructor]).
Qed.

Lemma executeTask_loop_fed (cfg : Config) (inputs : list Inputs) :
  forall w wd,
    Forall (fed (password cfg)) (trace wd) ->
    Forall (fed (password cfg))
           (trace (snd (fst (executeTask_loop cfg inputs w wd)))).
Proof.
  induction inputs as [|inp rest IH]; intros w wd Hf; simpl; [exact Hf|].
  unfold iteration.
  pose proof (throttle_fed (password cfg) (maxQPS cfg) inp w wd Hf) as Ht.
  destruct (throttle (maxQPS cfg) inp w wd) as [[[|] w1] wd1];
    cbn [snd] in Ht.
  - destruct (operation cfg inp w1 wd1) as [[w2 wd2]|msg] eqn:Eop;
      [|exact Hf].
    apply IH.
    apply operation_frame in Eop
      as (_ & _ & _ & es & x & Et & _ & _ & _ & Hes).
    rewrite Et. apply Forall_app; split; assumption.
  - apply IH. exact Ht.
Qed.

(** C8.  Whatever the command and the outcome of running it,
    [executeCommand] runs [bash -c command] with a standard input that
    holds the secret followed by a line break when the secret is not
    empty, and a lone line break when it is empty; in both cases the
    input is the secret followed by a line break, hence a finite,
    non-empty text that ends with a line break.  Every command that a
    run of [executeTask] executes, the second leg of the composite mode
    included, is started this way with the configured secret. *)
Theorem executeCommand_stdin (command pw : string) (o : RunOutcome) :
  let cmd := fst (fst (executeCommand command pw o)) in
  Path cmd = "bash"
  /\ Args cmd = ["-c"; command]
  /\ Stdin cmd = (if is_empty pw then newline else pw ++ newline)
  /\ Stdin cmd = pw ++ newline
  /\ Stdin (fst (fst (executeCommand command EmptyString o))) = newline
  /\ is_empty (Stdin cmd) = false
  /\ (forall cfg pkg inputs t0 r0 l0,
        Forall (fed (password cfg))
               (trace (snd (fst (executeTask cfg pkg inputs
                                             (mkWorld t0 r0 l0 [])))))).
Proof.
  change (fst (fst (executeCommand command pw o)))
    with (exec_Command command pw).
  change (fst (fst (executeCommand command EmptyString o)))
    with (exec_Command command EmptyString).
  cbv zeta. rewrite !exec_Command_Stdin.
  repeat split; try (destruct pw; reflexivity).
  intros cfg pkg inputs t0 r0 l0.
  apply executeTask_loop_fed. constructor.
Qed.

(** * Part III: the rest of the code *)

(** ** randomString and its test *)

Lemma letters_app (f : nat -> Z) (n m : nat) :
  forall k, letters f k (n + m) = letters f k n ++ letters f (k + n) m.
Proof.
  induction n as [|n IH]; intros k; simpl.
  - rewrite Nat.add_0_r. reflexivity.
  - rewrite IH. rewrite Nat.add_succ_r. reflexivity.
Qed.

(** X1.  Two calls of [randomString] one after the other, for lengths
    [n] and [m] that are not negative, use [n] and then [m] fresh draws:
    together they return what one call for the length [n + m] returns,
    cut after [n] letters.  A negative length panics instead. *)
Theorem randomString_sequence (n m : Z) (r : Rng) (Hn : 0 <= n) (Hm : 0 <= m) :
  (exists s1 r1 s2 r2,
      randomString n r = Ok (s1, r1)
      /\ randomString m r1 = Ok (s2, r2)
      /\ randomString (n + m) r = Ok (s1 ++ s2, r2)
      /\ len s1 = n /\ len s2 = m)
  /\ (forall k, k < 0 ->
        randomString k r = Panic "makeslice: len out of range").
Proof.
  split.
  - do 4 eexists.
    split; [apply randomString_spec; exact Hn|].
    split; [apply randomString_spec; exact Hm|].
    split.
    + rewrite randomString_spec by lia. cbn [raw pos].
      rewrite Z2Nat.inj_add by lia. rewrite letters_app, Nat.add_assoc.
      reflexivity.
    + unfold len. rewrite !letters_length. lia.
  - intros k Hk. unfold randomString.
    destruct (Z.ltb_spec k 0); [reflexivity|lia].
Qed.

Lemma randomString_sequence_witness :
  0 <= 2 /\ 0 <= 1
  /\ exists s1 r1 s2 r2,
       randomString 2 rng0 = Ok (s1, r1)
       /\ randomString 1 r1 = Ok (s2, r2)
       /\ randomString (2 + 1) rng0 = Ok (s1 ++ s2, r2).
Proof.
  assert (H2 : 0 <= 2) by (intro H; discriminate H).
  assert (H1 : 0 <= 1) by (intro H; discriminate H).
  split; [exact H2|]. split; [exact H1|].
  destruct (proj1 (randomString_sequence 2 1 rng0 H2 H1))
    as (s1 & r1 & s2 & r2 & Ha & Hb & Hc & _).
  exists s1, r1, s2, r2. repeat split; assumption.
Defined.

(** X2.  [TestRandomStringUnique] never panics and uses 64 draws; it
    passes unless each of the 32 draws of the second string selects the
    letter that the matching draw of the first string selected (the
    draws agree modulo 26).  So the test can fail: it does on a source
    that repeats itself every 32 draws. *)
Theorem TestRandomStringUnique_spec (r : Rng) :
  TestRandomStringUnique r
  = Ok (negb (same_draws (raw r) (pos r) (pos r + 32) 32),
        mkRng (raw r) (pos r + 64))
  /\ (forall draws k,
        (forall i, draws (i + 32)%nat = draws i) ->
        TestRandomStringUnique (mkRng draws k)
        = Ok (false, mkRng draws (k + 64))).
Proof.
  assert (H : forall r0,
             TestRandomStringUnique r0
             = Ok (negb (same_draws (raw r0) (pos r0) (pos r0 + 32) 32),
                   mkRng (raw r0) (pos r0 + 64))).
  { intros r0. unfold TestRandomStringUnique.
    rewrite (randomString_spec 32) by lia. unfold bind at 1.
    rewrite (randomString_spec 32) by lia. unfold bind at 1.
    cbn [raw pos]. change (Z.to_nat 32) with 32%nat.
    rewrite letters_eqb, <- Nat.add_assoc. reflexivity. }
  split; [apply H|].
  intros draws k Hper. rewrite H. cbn [raw pos]. f_equal. f_equal.
  apply negb_false_iff. unfold same_draws. apply forallb_forall.
  intros i _. apply Z.eqb_eq.
  replace (k + 32 + i)%nat with (k + i + 32)%nat by lia.
  rewrite Hper. reflexivity.
Qed.

Lemma TestRandomStringUnique_spec_witness :
  (forall i, stuck_source (i + 32)%nat = stuck_source i)
  /\ TestRandomStringUnique (mkRng stuck_source 0)
     = Ok (false, mkRng stuck_source 64).
Proof.
  assert (Hper : forall i, stuck_source (i + 32)%nat = stuck_source i)
    by (intros i; reflexivity).
  split; [exact Hper|].
  exact (proj2 (TestRandomStringUnique_spec rng0) stuck_source O Hper).
Defined.

(** ** The secret read by main *)

Lemma index_LF_app (a rest : string) :
  index_LF a = None ->
  index_LF (a ++ String LF rest) = Some (String.length a).
Proof.
  induction a as [|c a IH]; simpl; [reflexivity|].
  destruct (Ascii.eqb c LF); [discriminate|].
  destruct (index_LF a); [discriminate|].
  intros _. rewrite IH by reflexivity. reflexivity.
Qed.

Lemma index_LF_none_app (a : string) :
  index_LF a = None -> index_LF (a ++ String CR EmptyString) = None.
Proof.
  induction a as [|c a IH]; simpl; [reflexivity|].
  destruct (Ascii.eqb c LF); [discriminate|].
  destruct (index_LF a); [discriminate|].
  intros _. rewrite IH by reflexivity. reflexivity.
Qed.

Lemma substring_0_prefix (a b : string) :
  substring 0 (String.length a) (a ++ b) = a.
Proof.
  rewrite substring_0_app_le by lia. apply substring_0_all. lia.
Qed.

Lemma dropCR_app_CR (a : string) :
  dropCR (a ++ String CR EmptyString) = a.
Proof.
  induction a as [|c a IH]; [reflexivity|].
  simpl. rewrite IH. destruct a; reflexivity.
Qed.

Lemma Scan_line (line rest : string) :
  index_LF line = None ->
  len line < MaxScanTokenSize ->
  Scan (line ++ newline ++ rest) = Some (dropCR line).
Proof.
  intros Hlf Hlen. unfold Scan, newline.
  change (String (ascii_of_nat 10) EmptyString ++ rest) with (String LF rest).
  rewrite (index_LF_app _ _ Hlf).
  unfold len in Hlen. destruct (Z.ltb_spec (Z.of_nat (String.length line))
                                           MaxScanTokenSize); [|lia].
  rewrite substring_0_prefix. reflexivity.
Qed.

(** X3.  A secret piped to the process as one line comes out unchanged,
    with the exact limits of the scanner.  Take a secret [pw] that holds
    no line feed and does not end with a carriage return, of at most
    65535 bytes.  Piped with a line feed after it, whatever follows, or
    as the whole input with nothing after it, [main] reads [pw].  Piped
    with a carriage return and a line feed after it, [main] reads [pw]
    when [pw] has at most 65534 bytes, and reads the empty secret when
    [pw] has exactly 65535 bytes: the carriage return counts as a byte
    of the line, which then is as long as the buffer.  Every command
    then finds on its standard input the secret followed by a line
    feed. *)
Theorem password_round_trip (pw rest command : string)
  (Hlf : index_LF pw = None)
  (Hcr : dropCR pw = pw)
  (Hlen : len pw < MaxScanTokenSize) :
  read_password (pipe (pw ++ newline ++ rest)) = inr pw
  /\ read_password (pipe pw) = inr pw
  /\ (len pw + 1 < MaxScanTokenSize ->
      read_password (pipe (pw ++ String CR EmptyString ++ newline ++ rest))
      = inr pw)
  /\ (len pw + 1 = MaxScanTokenSize ->
      read_password (pipe (pw ++ String CR EmptyString ++ newline ++ rest))
      = inr EmptyString)
  /\ Stdin (exec_Command command pw) = pw ++ newline.
Proof.
  unfold read_password, pipe. cbn [stat_err char_device content negb].
  split; [|split; [|split; [|split]]].
  - rewrite Scan_line by assumption. rewrite Hcr. reflexivity.
  - unfold Scan. rewrite Hlf. destruct pw as [|c pw]; [reflexivity|].
    change (is_empty (String c pw)) with false. cbv iota.
    destruct (Z.ltb_spec (len (String c pw)) MaxScanTokenSize); [|lia].
    rewrite Hcr. reflexivity.
  - intros Hfit. rewrite <- append_assoc.
    rewrite Scan_line.
    + rewrite dropCR_app_CR. reflexivity.
    + apply index_LF_none_app. exact Hlf.
    + unfold len in *. rewrite append_length. simpl String.length. lia.
  - intros Hfull. rewrite <- append_assoc. unfold Scan, newline.
    change (String (ascii_of_nat 10) EmptyString ++ rest) with (String LF rest).
    rewrite (index_LF_app _ _ (index_LF_none_app _ Hlf)).
    rewrite append_length. simpl String.length. unfold len in Hfull.
    destruct (Z.ltb_spec (Z.of_nat (String.length pw + 1)) MaxScanTokenSize);
      [lia|reflexivity].
  - apply exec_Command_Stdin.
Qed.

Lemma password_round_trip_witness :
  index_LF "hunter2" = None
  /\ dropCR "hunter2" = "hunter2"
  /\ len "hunter2" < MaxScanTokenSize
  /\ len "hunter2" + 1 < MaxScanTokenSize
  /\ read_password (pipe ("hunter2" ++ newline ++ "second line")) = inr "hunter2"
  /\ read_password
       (pipe ("hunter2" ++ String CR EmptyString ++ newline ++ "second line"))
     = inr "hunter2".
Proof.
  split; [reflexivity|]. split; [reflexivity|]. split; [reflexivity|].
  split; [reflexivity|]. split.
  - exact (proj1 (password_round_trip "hunter2" "second line" "true"
                    eq_refl eq_refl eq_refl)).
  - exact (proj1 (proj2 (proj2 (password_round_trip "hunter2" "second line"
                                  "true" eq_refl eq_refl eq_refl)))
             eq_refl).
Defined.

Lemma index_LF_line_of (n : nat) : index_LF (line_of n) = None.
Proof.
  induction n as [|n IH]; simpl; [reflexivity|]. rewrite IH. reflexivity.
Qed.

Lemma line_of_length (n : nat) : String.length (line_of n) = n.
Proof. induction n as [|n IH]; simpl; [|rewrite IH]; reflexivity. Qed.

(** X4.  When the secret is silently empty.  [main] takes the empty
    secret, and prints nothing about it, when standard input is a
    terminal, when nothing at all is piped, and when the first line
    piped is 65536 bytes long or longer; each command then gets a lone
    line feed on its standard input.  Only a failure of [Stat] stops the
    process. *)
Theorem password_silently_empty (data line rest command : string)
  (Hlf : index_LF line = None)
  (Hlong : MaxScanTokenSize <= len line) :
  read_password (mkStdinFile None true data) = inr EmptyString
  /\ read_password (pipe EmptyString) = inr EmptyString
  /\ read_password (pipe (line ++ newline ++ rest)) = inr EmptyString
  /\ read_password (pipe line) = inr EmptyString
  /\ Stdin (exec_Command command EmptyString) = newline
  /\ (forall e c d,
        read_password (mkStdinFile (Some e) c d)
        = inl (Exit 1 ("Error checking stdin: " ++ e))).
Proof.
  unfold read_password, pipe. cbn [stat_err char_device content negb].
  split; [reflexivity|]. split; [reflexivity|].
  split; [|split; [|split; [reflexivity|reflexivity]]].
  - unfold Scan, newline.
    change (String (ascii_of_nat 10) EmptyString ++ rest) with (String LF rest).
    rewrite (index_LF_app _ _ Hlf). unfold len in Hlong.
    destruct (Z.ltb_spec (Z.of_nat (String.length line)) MaxScanTokenSize);
      [lia|reflexivity].
  - unfold Scan. rewrite Hlf.
    destruct (Z.ltb_spec (len line) MaxScanTokenSize); [lia|].
    destruct (is_empty line); reflexivity.
Qed.

Lemma password_silently_empty_witness :
  index_LF (line_of (Z.to_nat MaxScanTokenSize)) = None
  /\ MaxScanTokenSize <= len (line_of (Z.to_nat MaxScanTokenSize))
  /\ read_password (pipe (line_of (Z.to_nat MaxScanTokenSize) ++ newline ++ "rest")) = inr EmptyString.
Proof.
  assert (Hlf : index_LF (line_of (Z.to_nat MaxScanTokenSize)) = None) by apply index_LF_line_of.
  assert (Hlong : MaxScanTokenSize <= len (line_of (Z.to_nat MaxScanTokenSize))).
  { unfold len. rewrite line_of_length. apply Z.leb_le.
    vm_compute. reflexivity. }
  split; [exact Hlf|]. split; [exact Hlong|].
  exact (proj1 (proj2 (proj2 (password_silently_empty
                                EmptyString (line_of (Z.to_nat MaxScanTokenSize)) "rest" "true"
                                Hlf Hlong)))).
Defined.

(** ** generateCommand *)

Lemma generateCommand_cases (m p fn rem key dir chain : string) (r : Rng) :
  generateCommand m p fn rem key dir chain r
  = let p' := if is_empty p then letters (raw r) (pos r) 20 else p in
    let r' := if is_empty p then mkRng (raw r) (pos r + 20) else r in
    let fn' := if is_empty fn then "Main" else fn in
    if (m =? "addpkg")%string then
      Ok (addpkgCommand p' dir chain rem key, r')
    else if (m =? "addpkg+call")%string then
      Panic "Programming error: addpkg+call should be 2 separate calls to generateCommand."
    else if (m =? "call")%string then
      Ok (callCommand p' fn' chain rem key, r')
    else if (m =? "balanceQuery")%string then Ok (BalanceQuery, r')
    else if (m =? "qrender")%string then Ok (qrenderCommand p' rem, r')
    else Panic "Invalid mode".
Proof.
  unfold generateCommand.
  destruct (is_empty p); [rewrite randomString_20|]; reflexivity.
Qed.

Lemma generateCommand_is_ok (m p fn rem key dir chain : string) (r : Rng) :
  is_ok (generateCommand m p fn rem key dir chain r) = single_mode m.
Proof.
  rewrite generateCommand_cases. cbv zeta. unfold single_mode.
  destruct (m =? "addpkg")%string eqn:E1; [reflexivity|].
  destruct (m =? "addpkg+call")%string eqn:E2.
  - apply String.eqb_eq in E2. subst m. reflexivity.
  - destruct (m =? "call")%string; [reflexivity|].
    destruct (m =? "balanceQuery")%string; [reflexivity|].
    destruct (m =? "qrender")%string; reflexivity.
Qed.

(** X5.  How [generateCommand] treats its arguments.  It returns a
    command for the modes [addpkg], [call], [balanceQuery] and [qrender]
    and panics for every other mode, [addpkg+call] included.  An empty
    function name stands for [Main]; outside the mode [call] the
    function name is not used at all, and in the mode [balanceQuery]
    nothing is used: the command is the constant [BalanceQuery].  With
    an empty package name every returned command costs twenty draws of
    the random source, also in the mode [balanceQuery] where the
    generated name is thrown away; with a package name no draw is
    made. *)
Theorem generateCommand_arguments (m p fn rem key dir chain : string)
  (r : Rng) :
  is_ok (generateCommand m p fn rem key dir chain r) = single_mode m
  /\ generateCommand m p EmptyString rem key dir chain r
     = generateCommand m p "Main" rem key dir chain r
  /\ (forall fn',
        (m =? "call")%string = false ->
        generateCommand m p fn' rem key dir chain r
        = generateCommand m p fn rem key dir chain r)
  /\ (forall p' fn' rem' key' dir' chain',
        generateCommand "balanceQuery" p' fn' rem' key' dir' chain' r
        = Ok (BalanceQuery,
              if is_empty p' then mkRng (raw r) (pos r + 20) else r))
  /\ (forall cmd r',
        generateCommand m p fn rem key dir chain r = Ok (cmd, r') ->
        r' = if is_empty p then mkRng (raw r) (pos r + 20) else r).
Proof.
  split; [|split; [|split; [|split]]].
  - apply generateCommand_is_ok.
  - rewrite !generateCommand_cases. reflexivity.
  - intros fn' Hm. rewrite !generateCommand_cases. cbv zeta. rewrite Hm.
    reflexivity.
  - intros. rewrite generateCommand_cases. reflexivity.
  - intros cmd r'. rewrite generateCommand_cases. cbv zeta.
    repeat match goal with
           | |- context [if (m =? ?x)%string then _ else _] =>
               destruct (m =? x)%string
           end; intros E; inversion E; reflexivity.
Qed.

Lemma generateCommand_arguments_witness :
  ("qrender" =? "call")%string = false
  /\ generateCommand "qrender" "mypkg" "Render" "host" "Dev" "." "dev" rng0
     = generateCommand "qrender" "mypkg" "Main" "host" "Dev" "." "dev" rng0.
Proof.
  split; [reflexivity|].
  exact (proj1 (proj2 (proj2 (generateCommand_arguments
                                 "qrender" "mypkg" "Main" "host" "Dev" "."
                                 "dev" rng0)))
           "Render" eq_refl).
Defined.

(** ** validateArgs *)


(** ** Every operation, in every mode *)

Lemma operation_detail (cfg : Config) (inp : Inputs) (w w' : Worker)
  (wd wd' : World) :
  operation cfg inp w wd = Ok (w', wd') ->
  firstLoop w' = false
  /\ packageName w'
     = (if is_composite cfg then EmptyString else packageName w)
  /\ exists es x,
       trace wd' = (trace wd ++ es)%list
       /\ logs wd' = (logs wd ++ [x])%list
       /\ now wd' = Timestamp x
       /\ now wd <= Timestamp x - ResponseTime x
       /\ 0 <= ResponseTime x <= maxDuration
       /\ List.length (filter is_announce es)
          = (if firstLoop w then if is_composite cfg then 2 else 1 else 0)%nat
       /\ List.length (filter is_run es)
          = (if is_composite cfg then 2 else 1)%nat.
Proof.
  assert (Hsat : forall a b : Z, a <= b ->
                   0 <= Time_Sub b a <= maxDuration /\ Time_Sub b a <= b - a).
  { intros a b Hab. unfold Time_Sub, saturate, minDuration, maxDuration.
    change (2 ^ 63) with 9223372036854775808. lia. }
  unfold operation.
  destruct (if is_composite cfg && is_empty (packageName w)
            then randomString MaxPackageLength (rng wd)
            else Ok (packageName w, rng wd)) as [[pkg r]|] eqn:E1;
    [|discriminate].
  unfold bind at 1.
  destruct (generateCommand _ pkg _ _ _ _ _ r) as [[cmdStr r1]|] eqn:E2;
    [|discriminate].
  unfold bind at 1.
  unfold run_command, executeCommand, print_if, emit, emit_all, tick, set_rng.
  cbn [now rng logs trace fst snd].
  destruct (is_composite cfg) eqn:Ec.
  - destruct (firstLoop w), (run_err (run1 inp));
      cbn [now rng logs trace];
      (destruct (generateCommand "call" pkg _ _ _ _ _ r1)
        as [[cmdStr2 r2]|] eqn:E3; [|discriminate]);
      cbn [bind now rng logs trace];
      intros H; inversion H; subst; clear H;
      cbn [firstLoop packageName now trace logs];
      (split; [reflexivity|]); (split; [reflexivity|]);
      destruct (run_err (run2 inp));
      cbn [map app]; rewrite <- ?app_assoc;
      (eexists; eexists; split; [reflexivity|];
       split; [reflexivity|]; split; [reflexivity|];
       cbn [Timestamp ResponseTime];
       match goal with
       | |- context [Time_Sub ?b ?a] =>
           pose proof (Hsat a b ltac:(lia)) as [? ?]
       end;
       split; [lia|]; split; [lia|]; split; reflexivity).
  - destruct (firstLoop w), (run_err (run1 inp));
      cbn [bind now rng logs trace];
      intros H; inversion H; subst; clear H;
      cbn [firstLoop packageName now trace logs];
      (split; [reflexivity|]);
      (split; [cbn [andb] in E1; congruence|]);
      cbn [map app]; rewrite <- ?app_assoc;
      (eexists; eexists; split; [reflexivity|];
       split; [reflexivity|]; split; [reflexivity|];
       cbn [Timestamp ResponseTime];
       match goal with
       | |- context [Time_Sub ?b ?a] =>
           pose proof (Hsat a b ltac:(lia)) as [? ?]
       end;
       split; [lia|]; split; [lia|]; split; reflexivity).
Qed.

Lemma operation_known (cfg : Config) (inp : Inputs) (w : Worker) (wd : World) :
  known_mode (mode cfg) = true ->
  exists w' wd', operation cfg inp w wd = Ok (w', wd').
Proof.
  intros Hk. destruct cfg as [m fn rem key dir chain Q pw]. cbn [mode] in Hk.
  destruct (m =? "addpkg+call")%string eqn:Ec.
  - apply String.eqb_eq in Ec. subst m.
    destruct (operation_composite fn rem key dir chain Q pw inp w wd)
      as (es & Hop & _).
    do 2 eexists. exact Hop.
  - assert (Hs : single_mode m = true).
    { unfold known_mode in Hk. unfold single_mode. rewrite Ec in Hk.
      destruct (m =? "addpkg")%string, (m =? "call")%string,
        (m =? "balanceQuery")%string, (m =? "qrender")%string;
        simpl in *; congruence. }
    unfold operation, is_composite. cbn [mode functionName remote keyName
                                           pkgDir chainID password].
    rewrite Ec. cbn [andb]. unfold bind at 1.
    pose proof (generateCommand_is_ok m (packageName w) fn rem key
                                      dir chain (rng wd)) as Hok.
    rewrite Hs in Hok.
    destruct (generateCommand m (packageName w) fn rem key dir chain (rng wd))
      as [[cmdStr r1]|]; [|discriminate].
    unfold bind at 1.
    destruct (run_command cmdStr _ (run1 inp) _) as [err wd1].
    do 2 eexists. reflexivity.
Qed.

(** ** Runs of the worker loop *)

Lemma throttle_cases (Q : Z) (inp : Inputs) (w : Worker) (wd : World) :
  exists d w1 wd1,
    throttle Q inp w wd = (d, w1, wd1)
    /\ rng wd1 = rng wd /\ logs wd1 = logs wd
    /\ packageName w1 = packageName w /\ firstLoop w1 = firstLoop w
    /\ now wd <= now wd1
    /\ match d with
       | Admit =>
           exists win c t, trace wd1 = (trace wd ++ [EvAdmit win c t])%list
       | Defer =>
           exists win dur wake,
             trace wd1 = (trace wd ++ [EvSleep win dur wake])%list
       end.
Proof.
  unfold throttle, time_Sleep, emit, tick.
  destruct (Second <=? _); cbn [queryCount lastQueryTime packageName firstLoop];
    destruct (Q <=? _);
    do 3 eexists; (split; [reflexivity|]);
    cbn [now rng logs trace packageName firstLoop];
    repeat split; try lia; do 3 eexists; reflexivity.
Qed.





Lemma throttle_zero_cap (Q : Z) (inp : Inputs) (w : Worker) (wd : World) :
  Q <= 0 -> queryCount w = 0 ->
  exists w1 t e,
    throttle Q inp w wd
    = (Defer, w1, mkWorld t (rng wd) (logs wd) (trace wd ++ [e])%list)
    /\ queryCount w1 = 0 /\ is_sleep e = true.
Proof.
  intros HQ Hc. unfold throttle, time_Sleep, emit, tick.
  destruct (Second <=? _); cbn [queryCount lastQueryTime packageName firstLoop];
    rewrite ?Hc;
    (destruct (Z.leb_spec Q 0); [|lia]);
    do 3 eexists; cbn [snd now rng logs trace];
    (split; [reflexivity|]); split; (assumption || reflexivity).
Qed.

Lemma executeTask_loop_zero_cap (cfg : Config) (inputs : list Inputs) :
  maxQPS cfg <= 0 ->
  forall w wd,
    queryCount w = 0 ->
    exists w' t es,
      executeTask_loop cfg inputs w wd
      = (w', mkWorld t (rng wd) (logs wd) (trace wd ++ es)%list, None)
      /\ forallb is_sleep es = true
      /\ List.length es = List.length inputs.
Proof.
  intros HQ. induction inputs as [|inp rest IH]; intros w wd Hc.
  - exists w, (now wd), []. rewrite app_nil_r. destruct wd.
    repeat split.
  - cbn [executeTask_loop]. unfold iteration.
    destruct (throttle_zero_cap (maxQPS cfg) inp w wd HQ Hc)
      as (w1 & t1 & e & Ht & Hc1 & He).
    rewrite Ht.
    destruct (IH w1 (mkWorld t1 (rng wd) (logs wd) (trace wd ++ [e])%list)
                 Hc1) as (w' & t & es & Hrun & Hes & Hlen).
    rewrite Hrun. cbn [rng logs trace].
    exists w', t, (e :: es). rewrite <- app_assoc.
    split; [reflexivity|]. split; [simpl; rewrite He, Hes; reflexivity|].
    simpl. rewrite Hlen. reflexivity.
Qed.

(** X7.  With a rate cap of 0 or less (no check refuses it) the worker
    never runs anything: in every turn it sleeps and tries again.
    Whatever the mode, known or not, a run of any length runs no
    command, draws nothing from the random source, leaves the log as it
    was and does not panic. *)
Theorem zero_cap_only_sleeps (cfg : Config) (pkg : string)
  (inputs : list Inputs) (t0 : Time) (r0 : Rng) (l0 : list ExecutionLog)
  (HQ : maxQPS cfg <= 0) :
  exists w t es,
    executeTask cfg pkg inputs (mkWorld t0 r0 l0 [])
    = (w, mkWorld t r0 l0 es, None)
    /\ forallb is_sleep es = true
    /\ List.length es = List.length inputs
    /\ filter is_run es = []
    /\ filter is_append es = [].
Proof.
  destruct (executeTask_loop_zero_cap cfg inputs HQ
              (executeTask_init pkg (mkWorld t0 r0 l0 []))
              (mkWorld t0 r0 l0 []) eq_refl)
    as (w & t & es & Hrun & Hes & Hlen).
  exists w, t, es. split; [exact Hrun|]. split; [exact Hes|].
  split; [exact Hlen|].
  clear Hrun Hlen. induction es as [|e es IH]; [split; reflexivity|].
  simpl in Hes. apply andb_true_iff in Hes as [He Hes].
  destruct (IH Hes) as [H1 H2].
  destruct e; try discriminate. simpl. split; assumption.
Qed.

Lemma zero_cap_only_sleeps_witness :
  maxQPS (mkConfig "call" "Main" "host" "Dev" "." "dev" 0 EmptyString) <= 0
  /\ exists w t es,
       executeTask (mkConfig "call" "Main" "host" "Dev" "." "dev" 0 EmptyString)
                   "mypkg" [turn 0 0; turn 0 0] world0
       = (w, mkWorld t rng0 [] es, None)
       /\ filter is_run es = [].
Proof.
  assert (HQ : maxQPS (mkConfig "call" "Main" "host" "Dev" "." "dev" 0
                                EmptyString) <= 0)
    by (intro H; discriminate H).
  split; [exact HQ|].
  destruct (zero_cap_only_sleeps
              (mkConfig "call" "Main" "host" "Dev" "." "dev" 0 EmptyString)
              "mypkg" [turn 0 0; turn 0 0] 0 rng0 [] HQ)
    as (w & t & es & Hrun & _ & _ & Hnone & _).
  exists w, t, es. split; assumption.
Defined.

Lemma executeTask_loop_inv (cfg : Config) (P : Worker -> World -> Prop) :
  (forall inp w wd d w1 wd1,
      P w wd ->
      throttle (maxQPS cfg) inp w wd = (d, w1, wd1) ->
      match d with
      | Defer => P w1 wd1
      | Admit =>
          forall w' wd', operation cfg inp w1 wd1 = Ok (w', wd') -> P w' wd'
      end) ->
  forall inputs w wd,
    P w wd ->
    P (fst (fst (executeTask_loop cfg inputs w wd)))
      (snd (fst (executeTask_loop cfg inputs w wd))).
Proof.
  intros Hstep. induction inputs as [|inp rest IH]; intros w wd HP.
  - exact HP.
  - cbn [executeTask_loop]. unfold iteration.
    destruct (throttle (maxQPS cfg) inp w wd) as [[d w1] wd1] eqn:Et.
    pose proof (Hstep inp w wd d w1 wd1 HP Et) as Hd.
    destruct d.
    + destruct (operation cfg inp w1 wd1) as [[w2 wd2]|msg] eqn:Eop.
      * apply IH. apply Hd. reflexivity.
      * exact HP.
    + apply IH. exact Hd.
Qed.

Lemma executeTask_loop_known (cfg : Config) (inputs : list Inputs) :
  known_mode (mode cfg) = true ->
  forall w wd, snd (executeTask_loop cfg inputs w wd) = None.
Proof.
  intros Hk. induction inputs as [|inp rest IH]; intros w wd; [reflexivity|].
  cbn [executeTask_loop]. unfold iteration.
  destruct (throttle (maxQPS cfg) inp w wd) as [[[|] w1] wd1].
  - destruct (operation_known cfg inp w1 wd1 Hk) as (w2 & wd2 & Hop).
    rewrite Hop. apply IH.
  - apply IH.
Qed.

Lemma filter_quiet_admit (es : list Event) :
  forallb quiet es = true -> filter is_admit es = [].
Proof.
  induction es as [|e es IH]; [reflexivity|]. simpl. intros H.
  apply andb_true_iff in H as [He Hes]. rewrite (IH Hes).
  destruct e; simpl in *; try discriminate; reflexivity.
Qed.

Lemma length_filter_app {A : Type} (f : A -> bool) (l1 l2 : list A) :
  List.length (filter f (l1 ++ l2))
  = (List.length (filter f l1) + List.length (filter f l2))%nat.
Proof. rewrite filter_app, length_app. reflexivity. Qed.

Lemma books_step (cfg : Config) (l0 : list ExecutionLog) :
  forall inp w wd d w1 wd1,
    books l0 (commands_per_operation cfg) wd ->
    throttle (maxQPS cfg) inp w wd = (d, w1, wd1) ->
    match d with
    | Defer => books l0 (commands_per_operation cfg) wd1
    | Admit =>
        forall w' wd',
          operation cfg inp w1 wd1 = Ok (w', wd') ->
          books l0 (commands_per_operation cfg) wd'
    end.
Proof.
  intros inp w wd d w1 wd1 (added & Hl & Hap & Had & Hr) Et.
  destruct (throttle_cases (maxQPS cfg) inp w wd)
    as (d' & w1' & wd1' & Et' & _ & Hlogs & _ & _ & _ & Htr).
  rewrite Et in Et'. inversion Et'; subst d' w1' wd1'; clear Et'.
  destruct d.
  - destruct Htr as (win & c & t & Htr).
    intros w' wd' Hop.
    pose proof (operation_frame _ _ _ _ _ _ Hop)
      as (_ & _ & _ & es & x & Et' & Hq & Hl' & Happ & _).
    pose proof (operation_detail _ _ _ _ _ _ Hop)
      as (_ & _ & es' & x' & Et'' & _ & _ & _ & _ & _ & Hrun).
    rewrite Et' in Et''. apply app_inv_head in Et''. subst es'.
    exists (added ++ [x])%list.
    rewrite Hl', Hlogs, Hl, Et', Htr.
    split; [rewrite app_assoc; reflexivity|].
    rewrite !length_filter_app, !filter_app, !length_app, map_app.
    rewrite Hap, Happ, Had, Hr, Hrun, (filter_quiet_admit _ Hq).
    fold (commands_per_operation cfg). cbn.
    rewrite app_nil_r. split; [reflexivity|]. split; lia.
  - destruct Htr as (win & dur & wake & Htr).
    exists added. rewrite Hlogs, Htr.
    rewrite !length_filter_app, !filter_app. cbn.
    rewrite !app_nil_r, !Nat.add_0_r. repeat split; assumption.
Qed.

(** X8.  The books of a worker.  In a run of any length, in one of the
    five modes, the worker never panics; the log keeps the samples it
    had, in place, and gains one sample for every operation let through
    by the throttle, in the order of the operations; and one command is
    run per sample, two in the mode [addpkg+call].  A failing command
    changes nothing of this: its operation is logged like any other. *)
Theorem worker_books (cfg : Config) (pkg : string) (inputs : list Inputs)
  (t0 : Time) (r0 : Rng) (l0 : list ExecutionLog)
  (Hmode : known_mode (mode cfg) = true) :
  let run := executeTask cfg pkg inputs (mkWorld t0 r0 l0 []) in
  let tr := trace (snd (fst run)) in
  snd run = None
  /\ exists added,
       logs (snd (fst run)) = (l0 ++ added)%list
       /\ filter is_append tr = map EvAppend added
       /\ List.length (filter is_admit tr) = List.length added
       /\ List.length (filter is_run tr)
          = (commands_per_operation cfg * List.length added)%nat.
Proof.
  cbv zeta. split; [apply executeTask_loop_known; exact Hmode|].
  apply (executeTask_loop_inv cfg
           (fun _ wd => books l0 (commands_per_operation cfg) wd)).
  - intros inp w wd d w1 wd1. apply books_step.
  - exists []. cbn. rewrite app_nil_r, Nat.mul_0_r. repeat split.
Qed.

Lemma worker_books_witness :
  known_mode (mode cfg_pinned) = true
  /\ snd (executeTask cfg_pinned "mypkg" [turn 5 7; turn 5 7] world0) = None.
Proof.
  split; [reflexivity|].
  exact (proj1 (worker_books cfg_pinned "mypkg" [turn 5 7; turn 5 7]
                  0 rng0 [] eq_refl)).
Defined.

(** ** The samples of a run *)

Lemma sorted_stamps_snoc (l : list ExecutionLog) (x : ExecutionLog) :
  sorted_stamps l ->
  Forall (fun y => Timestamp y <= Timestamp x - ResponseTime x) l ->
  sorted_stamps (l ++ [x]).
Proof.
  induction l as [|a l IH]; intros Hs Hf; [simpl; auto|].
  inversion Hf as [|? ? Ha Hl]; subst.
  destruct Hs as [Hhead Hs]. specialize (IH Hs Hl).
  destruct l as [|b l]; simpl in *.
  - split; [exact Ha|auto].
  - split; [exact Hhead|exact IH].
Qed.

Lemma samples_step (cfg : Config) (t0 : Time) :
  forall inp w wd d w1 wd1,
    (t0 <= now wd
     /\ Forall (sample_ok t0 (now wd)) (logs wd)
     /\ sorted_stamps (logs wd)) ->
    throttle (maxQPS cfg) inp w wd = (d, w1, wd1) ->
    match d with
    | Defer =>
        t0 <= now wd1
        /\ Forall (sample_ok t0 (now wd1)) (logs wd1)
        /\ sorted_stamps (logs wd1)
    | Admit =>
        forall w' wd',
          operation cfg inp w1 wd1 = Ok (w', wd') ->
          t0 <= now wd'
          /\ Forall (sample_ok t0 (now wd')) (logs wd')
          /\ sorted_stamps (logs wd')
    end.
Proof.
  intros inp w wd d w1 wd1 (H0 & Hf & Hs) Et.
  destruct (throttle_cases (maxQPS cfg) inp w wd)
    as (d' & w1' & wd1' & Et' & _ & Hlogs & _ & _ & Hnow & _).
  rewrite Et in Et'. inversion Et'; subst d' w1' wd1'; clear Et'.
  assert (Hf1 : Forall (sample_ok t0 (now wd1)) (logs wd1)).
  { rewrite Hlogs. eapply Forall_impl; [|exact Hf].
    intros y (Hr & Hb & Ht). repeat split; try tauto; lia. }
  destruct d.
  - intros w' wd' Hop.
    pose proof (operation_detail _ _ _ _ _ _ Hop)
      as (_ & _ & es & x & _ & Hl' & Hn' & Hb & Hr & _ & _).
    rewrite Hl', Hn'. split; [lia|]. split.
    + apply Forall_app. split.
      * eapply Forall_impl; [|exact Hf1].
        intros y (Hry & Hby & Hty). repeat split; try tauto; lia.
      * constructor; [|constructor]. repeat split; lia.
    + apply sorted_stamps_snoc; [rewrite Hlogs; exact Hs|].
      eapply Forall_impl; [|exact Hf1].
      intros y (_ & _ & Hty). lia.
  - split; [lia|]. split; [exact Hf1|]. rewrite Hlogs. exact Hs.
Qed.

(** X9.  The samples of a worker, in time.  A worker that starts at time
    [t0] with an empty log leaves, after a run of any length and in any
    mode, samples whose response time is never negative (and at most the
    largest duration), whose timestamp is never later than the clock,
    and which do not overlap: the measurement of a sample begins (its
    timestamp less its response time) no earlier than [t0] and no
    earlier than the timestamp of the sample before it.  In particular
    the timestamps never decrease. *)
Theorem samples_in_time (cfg : Config) (pkg : string) (inputs : list Inputs)
  (t0 : Time) (r0 : Rng) :
  let wd := snd (fst (executeTask cfg pkg inputs (mkWorld t0 r0 [] []))) in
  Forall (sample_ok t0 (now wd)) (logs wd)
  /\ sorted_stamps (logs wd)
  /\ t0 <= now wd.
Proof.
  cbv zeta.
  pose proof (executeTask_loop_inv cfg
                (fun _ wd => t0 <= now wd
                             /\ Forall (sample_ok t0 (now wd)) (logs wd)
                             /\ sorted_stamps (logs wd))
                (samples_step cfg t0) inputs
                (executeTask_init pkg (mkWorld t0 r0 [] []))
                (mkWorld t0 r0 [] [])) as H.
  cbv beta in H. unfold executeTask.
  destruct H as (H0 & Hf & Hs).
  - cbn. split; [lia|]. split; [constructor|exact I].
  - repeat split; assumption.
Qed.

(** ** The announcement of the command *)

Lemma announced_step (cfg : Config) :
  forall inp w wd d w1 wd1,
    announced cfg w wd ->
    throttle (maxQPS cfg) inp w wd = (d, w1, wd1) ->
    match d with
    | Defer => announced cfg w1 wd1
    | Admit =>
        forall w' wd',
          operation cfg inp w1 wd1 = Ok (w', wd') -> announced cfg w' wd'
    end.
Proof.
  intros inp w wd d w1 wd1 Ha Et.
  destruct (throttle_cases (maxQPS cfg) inp w wd)
    as (d' & w1' & wd1' & Et' & _ & _ & _ & Hfl & _ & Htr).
  rewrite Et in Et'. inversion Et'; subst d' w1' wd1'; clear Et'.
  assert (Ha1 : announced cfg w1 wd1).
  { unfold announced in *. rewrite Hfl.
    destruct d; destruct Htr as (a & b & c & Htr); rewrite Htr;
      rewrite !filter_app; cbn; rewrite !app_nil_r; exact Ha. }
  destruct d; [|exact Ha1].
  intros w' wd' Hop.
  pose proof (operation_frame _ _ _ _ _ _ Hop)
    as (_ & _ & _ & es & x & Et' & _ & _ & Happ & _).
  pose proof (operation_detail _ _ _ _ _ _ Hop)
    as (Hfl' & _ & es' & x' & Et'' & _ & _ & _ & _ & Hann & _).
  rewrite Et' in Et''. apply app_inv_head in Et''. subst es'.
  unfold announced in *. rewrite Hfl', Et'.
  rewrite length_filter_app, filter_app, Happ, Hann.
  fold (commands_per_operation cfg).
  destruct (firstLoop w1).
  - destruct Ha1 as [Hn _]. rewrite Hn. split; [reflexivity|].
    intros E. apply app_eq_nil in E as [_ E]. discriminate E.
  - destruct Ha1 as [Hn _]. rewrite Hn, Nat.add_0_r. split; [reflexivity|].
    intros E. apply app_eq_nil in E as [_ E]. discriminate E.
Qed.

(** X10.  The command line is announced once.  In a run of any length,
    the lines [INFO: Executing] are printed by the first operation only:
    none as long as no sample is logged, and from the first sample on
    exactly one, or two in the mode [addpkg+call] (one per leg of the
    first cycle), however many operations follow.  The commands of later
    cycles, with their generated names, are never printed. *)
Theorem command_announced_once (cfg : Config) (pkg : string)
  (inputs : list Inputs) (t0 : Time) (r0 : Rng) (l0 : list ExecutionLog) :
  let run := executeTask cfg pkg inputs (mkWorld t0 r0 l0 []) in
  let tr := trace (snd (fst run)) in
  List.length (filter is_announce tr)
  = match filter is_append tr with
    | [] => O
    | _ => commands_per_operation cfg
    end
  /\ firstLoop (fst (fst run))
     = match filter is_append tr with [] => true | _ => false end.
Proof.
  cbv zeta.
  pose proof (executeTask_loop_inv cfg (announced cfg) (announced_step cfg)
                inputs (executeTask_init pkg (mkWorld t0 r0 l0 []))
                (mkWorld t0 r0 l0 [])) as H.
  unfold executeTask. unfold announced in H at 2.
  destruct (firstLoop _).
  - destruct H as [Hn Ha]; [split; reflexivity|]. rewrite Hn, Ha.
    split; reflexivity.
  - destruct H as [Hn Ha]; [split; reflexivity|]. rewrite Hn.
    destruct (filter is_append _); [congruence|]. split; reflexivity.
Qed.

(** ** The throttle lets the worker through *)

Lemma throttle_reset_admits (Q : Z) (inp : Inputs) (w : Worker) (wd : World) :
  1 <= Q ->
  Second <= now wd + Z.of_N (dt_check inp) - lastQueryTime w ->
  exists w1 wd1,
    throttle Q inp w wd = (Admit, w1, wd1)
    /\ lastQueryTime w1 <= now wd1 /\ logs wd1 = logs wd.
Proof.
  intros HQ Hexp. unfold throttle. rewrite Second_le_Time_Sub.
  cbn [tick now].
  destruct (Z.leb_spec Second (now wd + Z.of_N (dt_check inp) - lastQueryTime w));
    [|lia].
  cbn [queryCount lastQueryTime packageName firstLoop now rng logs trace].
  destruct (Z.leb_spec Q 0); [lia|].
  do 2 eexists. split; [reflexivity|]. cbn. split; [lia|reflexivity].
Qed.

Lemma executeTask_loop_progress (cfg : Config) (inputs : list Inputs) :
  known_mode (mode cfg) = true ->
  1 <= maxQPS cfg ->
  forall w wd,
    lastQueryTime w <= now wd ->
    Z.of_nat (List.length inputs)
    <= 2 * (Z.of_nat (List.length
                        (logs (snd (fst (executeTask_loop cfg inputs w wd)))))
            - Z.of_nat (List.length (logs wd)))
       + (if lastQueryTime w + Second <=? now wd then 0 else 1).
Proof.
  intros Hk HQ. induction inputs as [|inp rest IH]; intros w wd Hl.
  - cbn [executeTask_loop fst snd List.length]. destruct (_ <=? _); lia.
  - cbn [executeTask_loop List.length]. unfold iteration.
    assert (Hadmit : forall w1 wd1,
               throttle (maxQPS cfg) inp w wd = (Admit, w1, wd1) ->
               lastQueryTime w1 <= now wd1 -> logs wd1 = logs wd ->
               Z.of_nat (S (List.length rest))
               <= 2 * (Z.of_nat
                         (List.length
                            (logs (snd (fst
                               match operation cfg inp w1 wd1 with
                               | Ok (w', wd') =>
                                   executeTask_loop cfg rest w' wd'
                               | Panic msg => (w, wd, Some msg)
                               end))))
                       - Z.of_nat (List.length (logs wd)))).
    { intros w1 wd1 Et Hl1 Hlogs.
      destruct (operation_known cfg inp w1 wd1 Hk) as (w2 & wd2 & Hop).
      rewrite Hop.
      pose proof (operation_frame _ _ _ _ _ _ Hop)
        as (_ & Hlast & Hnow & es & x & _ & _ & Hl2 & _).
      specialize (IH w2 wd2 ltac:(lia)).
      rewrite Hl2, Hlogs, length_app in IH. cbn [List.length] in IH.
      destruct (_ <=? _) in IH; lia. }
    destruct (Z.le_gt_cases Second
                (now wd + Z.of_N (dt_check inp) - lastQueryTime w))
      as [Hexp|Hopen].
    + destruct (throttle_reset_admits _ inp w wd HQ Hexp)
        as (w1 & wd1 & Et & Hl1 & Hlogs).
      rewrite Et. specialize (Hadmit w1 wd1 Et Hl1 Hlogs).
      destruct (_ <=? _); lia.
    + destruct (Z.leb_spec (lastQueryTime w + Second) (now wd)); [lia|].
      destruct (Z.lt_ge_cases (queryCount w) (maxQPS cfg)) as [Hc|Hc].
      * pose proof (throttle_open_admits _ inp w wd Hopen Hc) as Et.
        rewrite Et.
        specialize (Hadmit _ _ Et
                      ltac:(unfold emit, tick; cbn [lastQueryTime now]; lia)
                      eq_refl).
        lia.
      * destruct (throttle_full_defers _ inp w wd Hl Hopen Hc)
          as (d & wake & Et & Hwake).
        rewrite Et.
        specialize (IH w (mkWorld wake (rng wd) (logs wd)
                                  (trace wd ++ [EvSleep (lastQueryTime w) d wake])%list)).
        cbn [now logs] in IH.
        destruct (Z.leb_spec (lastQueryTime w + Second) wake); [|lia].
        unfold Second in *. specialize (IH ltac:(lia)). lia.
Qed.

Lemma last_slept_app (tr es : list Event) :
  forall b, last_slept b (tr ++ es) = last_slept (last_slept b tr) es.
Proof.
  induction tr as [|e tr IH]; intros b; [reflexivity|].
  destruct e; simpl; apply IH.
Qed.

Lemma sleeps_apart_app (tr es : list Event) :
  forall b,
    sleeps_apart b (tr ++ es)
    = sleeps_apart b tr && sleeps_apart (last_slept b tr) es.
Proof.
  induction tr as [|e tr IH]; intros b; [reflexivity|].
  destruct e; simpl; rewrite ?IH, ?andb_assoc; reflexivity.
Qed.

Lemma last_slept_quiet (es : list Event) :
  forallb quiet es = true -> forall b, last_slept b es = b.
Proof.
  induction es as [|e es IH]; intros H b; [reflexivity|].
  simpl in H. apply andb_true_iff in H as [He Hes].
  destruct e; simpl in *; try discriminate; apply IH; exact Hes.
Qed.

Lemma sleeps_apart_quiet (es : list Event) :
  forallb quiet es = true -> forall b, sleeps_apart b es = true.
Proof.
  induction es as [|e es IH]; intros H b; [reflexivity|].
  simpl in H. apply andb_true_iff in H as [He Hes].
  destruct e; simpl in *; try discriminate; apply IH; exact Hes.
Qed.

(** A turn that sleeps leaves the window expired: whatever the inputs of
    the next turn, it admits. *)
Lemma throttle_defer_then_admit (Q : Z) (inp inp' : Inputs) (w w1 : Worker)
  (wd wd1 : World) :
  1 <= Q ->
  lastQueryTime w <= now wd ->
  throttle Q inp w wd = (Defer, w1, wd1) ->
  lastQueryTime w1 + Second <= now wd1
  /\ (exists win d wake, trace wd1 = (trace wd ++ [EvSleep win d wake])%list)
  /\ now wd + Z.of_N (dt_check inp) - lastQueryTime w < Second
  /\ exists w2 wd2, throttle Q inp' w1 wd1 = (Admit, w2, wd2).
Proof.
  intros HQ Hl Et.
  destruct (Z.le_gt_cases Second
              (now wd + Z.of_N (dt_check inp) - lastQueryTime w))
    as [Hexp|Hopen].
  - destruct (throttle_reset_admits _ inp w wd HQ Hexp) as (w' & wd' & Et' & _).
    rewrite Et' in Et. discriminate Et.
  - destruct (Z.lt_ge_cases (queryCount w) Q) as [Hc|Hc].
    + rewrite (throttle_open_admits _ inp w wd Hopen Hc) in Et. discriminate Et.
    + destruct (throttle_full_defers _ inp w wd Hl Hopen Hc)
        as (d & wake & Et' & Hwake).
      rewrite Et' in Et. inversion Et; subst w1 wd1; clear Et.
      cbn [now trace].
      split; [exact Hwake|]. split; [eauto|]. split; [exact Hopen|].
      destruct (throttle_reset_admits Q inp' w
                  (mkWorld wake (rng wd) (logs wd)
                     (trace wd ++ [EvSleep (lastQueryTime w) d wake])%list) HQ)
        as (w2 & wd2 & Et2 & _); [cbn [now]; lia|].
      eauto.
Qed.

Lemma awake_step (cfg : Config) (HQ : 1 <= maxQPS cfg) :
  forall inp w wd d w1 wd1,
    awake_inv w wd ->
    throttle (maxQPS cfg) inp w wd = (d, w1, wd1) ->
    match d with
    | Defer => awake_inv w1 wd1
    | Admit =>
        forall w' wd',
          operation cfg inp w1 wd1 = Ok (w', wd') -> awake_inv w' wd'
    end.
Proof.
  intros inp w wd d w1 wd1 (Hl & Hap & Hsl) Et. destruct d.
  - intros w' wd' Hop.
    pose proof (operation_frame _ _ _ _ _ _ Hop)
      as (_ & Hlast & Hnow & es & x & Htr & Hq & _).
    destruct (throttle_cases (maxQPS cfg) inp w wd)
      as (d & w1' & wd1' & Et' & _ & _ & _ & _ & _ & Hshape).
    rewrite Et in Et'. inversion Et'; subst d w1' wd1'; clear Et'.
    destruct Hshape as (win & c & t & Htr1).
    assert (Hl1 : lastQueryTime w1 <= now wd1).
    { destruct (Z.le_gt_cases Second
                  (now wd + Z.of_N (dt_check inp) - lastQueryTime w))
        as [Hexp|Hopen].
      - destruct (throttle_reset_admits _ inp w wd HQ Hexp)
          as (w2 & wd2 & Et2 & Hl2 & _).
        rewrite Et2 in Et. inversion Et; subst. exact Hl2.
      - destruct (Z.lt_ge_cases (queryCount w) (maxQPS cfg)) as [Hc|Hc].
        + rewrite (throttle_open_admits _ inp w wd Hopen Hc) in Et.
          inversion Et; subst. unfold emit, tick. cbn [lastQueryTime now]. lia.
        + destruct (throttle_full_defers _ inp w wd Hl Hopen Hc)
            as (d & wake & Et2 & _).
          rewrite Et2 in Et. discriminate Et. }
    unfold awake_inv. rewrite Htr, Htr1, Hlast.
    rewrite !sleeps_apart_app, !last_slept_app, Hap.
    rewrite (sleeps_apart_quiet _ Hq), (last_slept_quiet _ Hq).
    cbn [last_slept sleeps_apart andb].
    split; [lia|]. split; [reflexivity|]. intros H; discriminate H.
  - destruct (throttle_defer_then_admit _ inp inp w w1 wd wd1 HQ Hl Et)
      as (Hwake & (win & dur & wake & Htr) & Hopen & _).
    unfold awake_inv. rewrite Htr, sleeps_apart_app, last_slept_app, Hap.
    cbn [last_slept sleeps_apart andb].
    split; [unfold Second in *; lia|]. split; [|intros _; exact Hwake].
    destruct (last_slept false (trace wd)); [|reflexivity].
    specialize (Hsl eq_refl). lia.
Qed.

Lemma sleeps_apart_between (m rest : list Event) (win d wake : Z) :
  sleeps_apart true (m ++ EvSleep win d wake :: rest) = true ->
  exists win' c t, In (EvAdmit win' c t) m.
Proof.
  induction m as [|e m IH]; simpl; [discriminate|].
  destruct e as [win' c t| | | |]; simpl;
    try (intros H; destruct (IH H) as (w1 & c1 & t1 & Hin);
         exists w1, c1, t1; right; exact Hin).
  - intros _. exists win', c, t. left. reflexivity.
  - discriminate.
Qed.

Lemma sleeps_apart_reading (tr : list Event) :
  sleeps_apart false tr = true ->
  forall a m b win d wake win' d' wake',
    tr = (a ++ EvSleep win d wake :: m ++ EvSleep win' d' wake' :: b)%list ->
    exists win'' c t, In (EvAdmit win'' c t) m.
Proof.
  intros H a m b win d wake win' d' wake' ->.
  rewrite sleeps_apart_app in H. apply andb_true_iff in H as [_ H].
  simpl in H. apply andb_true_iff in H as [_ H].
  eapply sleeps_apart_between; eauto.
Qed.

(** X11.  The throttle never holds a worker back two turns in a row.
    With a rate cap of at least 1: a turn that sleeps, taken from a state
    whose window did not start in the future, ends no earlier than one
    second after the start of the window, and the turn after it admits,
    whatever its inputs.  So in the trace of any run there is an
    admission between any two sleeps.  With one of the five modes every
    admitted turn logs a sample, so that a run of [n] turns logs at
    least [(n - 1) / 2] samples: [n <= 2 * samples + 1]. *)
Theorem throttle_progress (cfg : Config) (pkg : string) (inputs : list Inputs)
  (t0 : Time) (r0 : Rng) (l0 : list ExecutionLog)
  (Hmode : known_mode (mode cfg) = true)
  (HQ : 1 <= maxQPS cfg) :
  let run := executeTask cfg pkg inputs (mkWorld t0 r0 l0 []) in
  let wd := snd (fst run) in
  (forall inp inp' w w1 wd0 wd1,
      lastQueryTime w <= now wd0 ->
      throttle (maxQPS cfg) inp w wd0 = (Defer, w1, wd1) ->
      lastQueryTime w1 + Second <= now wd1
      /\ exists w2 wd2, throttle (maxQPS cfg) inp' w1 wd1 = (Admit, w2, wd2))
  /\ lastQueryTime (fst (fst run)) <= now wd
  /\ sleeps_apart false (trace wd) = true
  /\ (forall a m b win d wake win' d' wake',
        trace wd
        = (a ++ EvSleep win d wake :: m ++ EvSleep win' d' wake' :: b)%list ->
        exists win'' c t, In (EvAdmit win'' c t) m)
  /\ Z.of_nat (List.length inputs)
     <= 2 * (Z.of_nat (List.length (logs wd)) - Z.of_nat (List.length l0)) + 1.
Proof.
  cbv zeta.
  assert (Hinv : awake_inv
                   (fst (fst (executeTask cfg pkg inputs (mkWorld t0 r0 l0 []))))
                   (snd (fst (executeTask cfg pkg inputs (mkWorld t0 r0 l0 []))))).
  { apply (executeTask_loop_inv cfg awake_inv (awake_step cfg HQ)).
    unfold awake_inv. cbn. split; [lia|]. split; [reflexivity|]. discriminate. }
  destruct Hinv as (Hl & Hap & _).
  split.
  { intros inp inp' w w1 wd0 wd1 Hl0 Et.
    destruct (throttle_defer_then_admit _ inp inp' w w1 wd0 wd1 HQ Hl0 Et)
      as (Hwake & _ & _ & Hnext).
    split; assumption. }
  split; [exact Hl|]. split; [exact Hap|].
  split; [apply sleeps_apart_reading; exact Hap|].
  pose proof (executeTask_loop_progress cfg inputs Hmode HQ
                (executeTask_init pkg (mkWorld t0 r0 l0 []))
                (mkWorld t0 r0 l0 []) ltac:(cbn; lia)) as H.
  unfold executeTask. cbn [logs] in H.
  destruct (_ <=? _) in H; lia.
Qed.

Lemma throttle_progress_witness :
  known_mode (mode cfg_call) = true
  /\ 1 <= maxQPS cfg_call
  /\ sleeps_apart false
       (trace (snd (fst (executeTask
                           cfg_call "testABC"
                           [turn 100000000 0; turn 100000000 0;
                            turn 100000000 0; turn 100000000 0]
                           world0)))) = true
  /\ Z.of_nat (List.length [turn 100000000 0; turn 100000000 0;
                            turn 100000000 0; turn 100000000 0])
     <= 2 * (Z.of_nat
               (List.length
                  (logs (snd (fst (executeTask
                                     cfg_call "testABC"
                                     [turn 100000000 0; turn 100000000 0;
                                      turn 100000000 0; turn 100000000 0]
                                     world0)))))
             - Z.of_nat (List.length (@nil ExecutionLog))) + 1.
Proof.
  assert (HQ : 1 <= maxQPS cfg_call) by (intro H; discriminate H).
  split; [reflexivity|]. split; [exact HQ|].
  pose proof (throttle_progress cfg_call "testABC"
           [turn 100000000 0; turn 100000000 0;
            turn 100000000 0; turn 100000000 0] 0 rng0 [] eq_refl HQ) as H.
  split; [exact (proj1 (proj2 (proj2 H)))|exact (proj2 (proj2 (proj2 (proj2 H))))].
Defined.

(** ** What validation gives the worker *)

Lemma is_empty_false (s : string) : is_empty s = false <-> s <> EmptyString.
Proof. unfold is_empty. apply String.eqb_neq. Qed.

Lemma is_empty_true (s : string) : is_empty s = true <-> s = EmptyString.
Proof. unfold is_empty. apply String.eqb_eq. Qed.

(** X12.  [validateArgs] accepts a set of arguments exactly when, for
    its mode, the needed names are there and the names that would be
    ignored are not: no function in the mode [addpkg]; a package in the
    mode [call]; no package, no function and the default directory in
    the mode [balanceQuery]; a package and the default chain in the mode
    [qrender].  Otherwise it exits with status 1. *)
Theorem validateArgs_accepts (args : CommandLineArgs) :
  (validateArgs args = Accepted <-> requirements args)
  /\ (validateArgs args = Accepted
      \/ exists msg, validateArgs args = Exit 1 msg).
Proof.
  unfold validateArgs, requirements. split.
  - destruct (String.eqb_spec (Mode args) "addpkg") as [Ea|Ea];
      [rewrite Ea|];
      (destruct (is_empty (FunctionName args)) eqn:Ef;
       [apply is_empty_true in Ef|apply is_empty_false in Ef]);
      (destruct (is_empty (PackageName args)) eqn:Ep;
       [apply is_empty_true in Ep|apply is_empty_false in Ep]);
      cbn [andb negb String.eqb Ascii.eqb Bool.eqb];
      try (split; [intros _|reflexivity]; repeat split; intros; congruence);
      try (split; [discriminate|intros (H1 & H2 & H3 & H4); tauto]);
      (destruct (String.eqb_spec (Mode args) "call") as [Ec|Ec];
       [rewrite Ec|]);
      cbn [andb negb String.eqb Ascii.eqb Bool.eqb];
      try (split; [intros _|reflexivity]; repeat split; intros; congruence);
      try (split; [discriminate|intros (H1 & H2 & H3 & H4); tauto]);
      (destruct (String.eqb_spec (Mode args) "balanceQuery") as [Eb|Eb];
       [rewrite Eb|]);
      cbn [andb negb String.eqb Ascii.eqb Bool.eqb];
      try (split; [intros _|reflexivity]; repeat split; intros; congruence);
      try (split; [discriminate|intros (H1 & H2 & H3 & H4); tauto]);
      (destruct (String.eqb_spec (PkgDir args) ".") as [Ed|Ed]);
      cbn [andb negb String.eqb Ascii.eqb Bool.eqb];
      try (split; [intros _|reflexivity]; repeat split; intros; congruence);
      try (split; [discriminate|intros (H1 & H2 & H3 & H4); tauto]);
      (destruct (String.eqb_spec (Mode args) "qrender") as [Eq|Eq];
       [rewrite Eq|]);
      cbn [andb negb String.eqb Ascii.eqb Bool.eqb];
      try (split; [intros _|reflexivity]; repeat split; intros; congruence);
      try (split; [discriminate|intros (H1 & H2 & H3 & H4); tauto]);
      (destruct (String.eqb_spec (ChainID args) DefaultChainId) as [Eh|Eh]);
      cbn [andb negb String.eqb Ascii.eqb Bool.eqb];
      try (split; [intros _|reflexivity]; repeat split; intros; congruence);
      try (split; [discriminate|intros (H1 & H2 & H3 & H4); tauto]).
  - repeat match goal with
           | |- context [if ?b then _ else _] => destruct b
           end; (left; reflexivity) || (right; eexists; reflexivity).
Qed.

Lemma operation_single (cfg : Config) (inp : Inputs) (w : Worker) (wd : World)
  (cmd : string) (r1 : Rng) :
  is_composite cfg = false ->
  generateCommand (mode cfg) (packageName w) (functionName cfg) (remote cfg)
                  (keyName cfg) (pkgDir cfg) (chainID cfg) (rng wd)
  = Ok (cmd, r1) ->
  exists wd' es x,
    operation cfg inp w wd
    = Ok (mkWorker (queryCount w) (lastQueryTime w) (packageName w) false, wd')
    /\ rng wd' = r1
    /\ logs wd' = (logs wd ++ [x])%list
    /\ trace wd' = (trace wd ++ es)%list
    /\ Forall (runs_only cmd (password cfg)) es.
Proof.
  intros Hc Hgen. unfold operation. rewrite Hc. cbn [andb].
  unfold bind at 1. rewrite Hgen. unfold bind at 1.
  unfold run_command, executeCommand, print_if, emit, emit_all, tick, set_rng.
  cbn [now rng logs trace fst snd].
  destruct (firstLoop w), (run_err (run1 inp));
    cbn [bind now rng logs trace map app]; rewrite <- ?app_assoc;
    (do 3 eexists; split; [reflexivity|]; cbn [rng logs trace];
     split; [reflexivity|]; split; [reflexivity|]; split; [reflexivity|];
     repeat first [apply Forall_nil
                  | apply Forall_cons; [first [exact I|reflexivity]|]]).
Qed.

Lemma runs_only_step (cfg : Config) (cmd : string) (r0 : Rng) (pkg : string) :
  is_composite cfg = false ->
  (forall r,
      generateCommand (mode cfg) pkg (functionName cfg) (remote cfg)
                      (keyName cfg) (pkgDir cfg) (chainID cfg) r
      = Ok (cmd, r)) ->
  forall inp w wd d w1 wd1,
    (packageName w = pkg /\ rng wd = r0
     /\ Forall (runs_only cmd (password cfg)) (trace wd)) ->
    throttle (maxQPS cfg) inp w wd = (d, w1, wd1) ->
    match d with
    | Defer =>
        packageName w1 = pkg /\ rng wd1 = r0
        /\ Forall (runs_only cmd (password cfg)) (trace wd1)
    | Admit =>
        forall w' wd',
          operation cfg inp w1 wd1 = Ok (w', wd') ->
          packageName w' = pkg /\ rng wd' = r0
          /\ Forall (runs_only cmd (password cfg)) (trace wd')
    end.
Proof.
  intros Hc Hgen inp w wd d w1 wd1 (Hp & Hr & Hf) Et.
  destruct (throttle_cases (maxQPS cfg) inp w wd)
    as (d' & w1' & wd1' & Et' & Hrng & _ & Hpk & _ & _ & Htr).
  rewrite Et in Et'. inversion Et'; subst d' w1' wd1'; clear Et'.
  assert (Hf1 : Forall (runs_only cmd (password cfg)) (trace wd1)).
  { destruct d; destruct Htr as (a & b & c & Htr); rewrite Htr;
      (apply Forall_app; split; [exact Hf|repeat constructor]). }
  destruct d.
  - intros w' wd' Hop.
    destruct (operation_single cfg inp w1 wd1 cmd (rng wd1) Hc)
      as (wd2 & es & x & Hop' & Hr2 & _ & Ht2 & Hes).
    { rewrite Hpk, Hp. apply Hgen. }
    rewrite Hop in Hop'. inversion Hop'; subst w' wd'; clear Hop'.
    cbn [packageName]. rewrite Hr2, Ht2.
    split; [congruence|]. split; [congruence|].
    apply Forall_app; split; assumption.
  - split; [congruence|]. split; [congruence|exact Hf1].
Qed.

(** X13.  In the modes [call] and [qrender] an accepted set of arguments
    has a package name, so the worker generates none: a run of any
    length leaves the random source untouched, does not panic, and every
    command it runs is the same command line, built once and for all
    from the arguments, fed with the secret. *)
Theorem accepted_call_runs_one_command (args : CommandLineArgs) (pw : string)
  (inputs : list Inputs) (t0 : Time) (r0 : Rng) (l0 : list ExecutionLog)
  (Hok : validateArgs args = Accepted)
  (Hmode : Mode args = "call" \/ Mode args = "qrender") :
  let run := executeTask (config_of args pw) (PackageName args) inputs
                         (mkWorld t0 r0 l0 []) in
  snd run = None
  /\ rng (snd (fst run)) = r0
  /\ Forall (runs_only (fixed_command args) pw) (trace (snd (fst run)))
  /\ packageName (fst (fst run)) = PackageName args.
Proof.
  cbv zeta.
  assert (Hp : is_empty (PackageName args) = false).
  { revert Hok. unfold validateArgs.
    destruct Hmode as [Hm|Hm]; rewrite Hm;
      cbn [String.eqb Ascii.eqb Bool.eqb andb];
      destruct (is_empty (PackageName args)); cbn [andb negb];
      try discriminate; reflexivity. }
  assert (Hc : is_composite (config_of args pw) = false).
  { unfold is_composite, config_of. cbn [mode].
    destruct Hmode as [Hm|Hm]; rewrite Hm; reflexivity. }
  assert (Hgen : forall r,
             generateCommand (mode (config_of args pw)) (PackageName args)
                             (functionName (config_of args pw))
                             (remote (config_of args pw))
                             (keyName (config_of args pw))
                             (pkgDir (config_of args pw))
                             (chainID (config_of args pw)) r
             = Ok (fixed_command args, r)).
  { intros r. rewrite generateCommand_cases. cbv zeta. rewrite Hp.
    unfold fixed_command, config_of.
    cbn [mode functionName remote keyName pkgDir chainID].
    destruct Hmode as [Hm|Hm]; rewrite Hm; reflexivity. }
  split.
  { apply executeTask_loop_known. unfold known_mode, config_of. cbn [mode].
    destruct Hmode as [Hm|Hm]; rewrite Hm; reflexivity. }
  pose proof (executeTask_loop_inv (config_of args pw)
                (fun w wd => packageName w = PackageName args /\ rng wd = r0
                             /\ Forall (runs_only (fixed_command args)
                                                  (password (config_of args pw)))
                                       (trace wd))
                (runs_only_step _ _ r0 _ Hc Hgen) inputs
                (executeTask_init (PackageName args) (mkWorld t0 r0 l0 []))
                (mkWorld t0 r0 l0 [])) as H.
  cbv beta in H. unfold executeTask.
  destruct H as (H1 & H2 & H3).
  - repeat split. constructor.
  - repeat split; assumption.
Qed.

Lemma balance_step (cfg : Config) (r0 : Rng) (l0 : list ExecutionLog) :
  mode cfg = "balanceQuery" ->
  forall inp w wd d w1 wd1,
    (packageName w = EmptyString /\ raw (rng wd) = raw r0
     /\ (pos (rng wd) + 20 * List.length l0
         = pos r0 + 20 * List.length (logs wd))%nat
     /\ Forall (runs_only BalanceQuery (password cfg)) (trace wd)) ->
    throttle (maxQPS cfg) inp w wd = (d, w1, wd1) ->
    match d with
    | Defer =>
        packageName w1 = EmptyString /\ raw (rng wd1) = raw r0
        /\ (pos (rng wd1) + 20 * List.length l0
            = pos r0 + 20 * List.length (logs wd1))%nat
        /\ Forall (runs_only BalanceQuery (password cfg)) (trace wd1)
    | Admit =>
        forall w' wd',
          operation cfg inp w1 wd1 = Ok (w', wd') ->
          packageName w' = EmptyString /\ raw (rng wd') = raw r0
          /\ (pos (rng wd') + 20 * List.length l0
              = pos r0 + 20 * List.length (logs wd'))%nat
          /\ Forall (runs_only BalanceQuery (password cfg)) (trace wd')
    end.
Proof.
  intros Hm inp w wd d w1 wd1 (Hp & Hraw & Hpos & Hf) Et.
  destruct (throttle_cases (maxQPS cfg) inp w wd)
    as (d' & w1' & wd1' & Et' & Hrng & Hlogs & Hpk & _ & _ & Htr).
  rewrite Et in Et'. inversion Et'; subst d' w1' wd1'; clear Et'.
  assert (Hf1 : Forall (runs_only BalanceQuery (password cfg)) (trace wd1)).
  { destruct d; destruct Htr as (a & b & c & Htr); rewrite Htr;
      (apply Forall_app; split; [exact Hf|repeat constructor]). }
  destruct d.
  - intros w' wd' Hop.
    destruct (operation_single cfg inp w1 wd1 BalanceQuery
                (mkRng (raw (rng wd1)) (pos (rng wd1) + 20)))
      as (wd2 & es & x & Hop' & Hr2 & Hl2 & Ht2 & Hes).
    { unfold is_composite. rewrite Hm. reflexivity. }
    { rewrite generateCommand_cases, Hm, Hpk, Hp. reflexivity. }
    rewrite Hop in Hop'. inversion Hop'; subst w' wd'; clear Hop'.
    cbn [packageName]. rewrite Hr2, Hl2, Ht2, length_app. cbn [raw pos List.length].
    rewrite Hrng, Hlogs.
    split; [congruence|]. split; [exact Hraw|]. split; [lia|].
    apply Forall_app; split; assumption.
  - rewrite Hrng, Hlogs.
    split; [congruence|]. split; [exact Hraw|]. split; [exact Hpos|exact Hf1].
Qed.

(** X14.  In the mode [balanceQuery] an accepted set of arguments has no
    package name, and none is needed: every command that a run of any
    length executes is the constant [BalanceQuery].  Yet each operation
    generates a package name that it does not use: the random source
    advances by twenty draws per logged sample. *)
Theorem accepted_balanceQuery_draws (args : CommandLineArgs) (pw : string)
  (inputs : list Inputs) (t0 : Time) (r0 : Rng) (l0 : list ExecutionLog)
  (Hok : validateArgs args = Accepted)
  (Hmode : Mode args = "balanceQuery") :
  let run := executeTask (config_of args pw) (PackageName args) inputs
                         (mkWorld t0 r0 l0 []) in
  PackageName args = EmptyString
  /\ snd run = None
  /\ Forall (runs_only BalanceQuery pw) (trace (snd (fst run)))
  /\ raw (rng (snd (fst run))) = raw r0
  /\ (pos (rng (snd (fst run))) + 20 * List.length l0
      = pos r0 + 20 * List.length (logs (snd (fst run))))%nat.
Proof.
  cbv zeta.
  assert (Hp : PackageName args = EmptyString).
  { revert Hok. unfold validateArgs. rewrite Hmode.
    cbn [String.eqb Ascii.eqb Bool.eqb andb].
    destruct (is_empty (PackageName args)) eqn:E; cbn [andb negb];
      [intros _; apply is_empty_true; exact E|discriminate]. }
  split; [exact Hp|].
  split.
  { apply executeTask_loop_known. unfold known_mode, config_of. cbn [mode].
    rewrite Hmode. reflexivity. }
  pose proof (executeTask_loop_inv (config_of args pw) _
                (balance_step (config_of args pw) r0 l0 Hmode) inputs
                (executeTask_init (PackageName args) (mkWorld t0 r0 l0 []))
                (mkWorld t0 r0 l0 [])) as H.
  cbv beta in H. unfold executeTask.
  destruct H as (_ & H2 & H3 & H4).
  - cbn. split; [exact Hp|]. split; [reflexivity|]. split; [lia|constructor].
  - repeat split; assumption.
Qed.

Lemma validateArgs_accepts_witness :
  requirements readme_args /\ validateArgs readme_args = Accepted.
Proof.
  assert (Hr : requirements readme_args)
    by (unfold requirements; split; [|split; [|split]];
        intros Hm; discriminate Hm).
  split; [exact Hr|].
  exact (proj2 (proj1 (validateArgs_accepts readme_args)) Hr).
Defined.

Lemma accepted_call_runs_one_command_witness :
  validateArgs call_args = Accepted
  /\ (Mode call_args = "call" \/ Mode call_args = "qrender")
  /\ rng (snd (fst (executeTask (config_of call_args "secret")
                                (PackageName call_args)
                                [turn 10 0; turn 10 0] world0))) = rng0.
Proof.
  split; [reflexivity|]. split; [left; reflexivity|].
  exact (proj1 (proj2 (accepted_call_runs_one_command
                         call_args "secret" [turn 10 0; turn 10 0]
                         0 rng0 [] eq_refl (or_introl eq_refl)))).
Defined.

Lemma accepted_balanceQuery_draws_witness :
  validateArgs balance_args = Accepted
  /\ Mode balance_args = "balanceQuery"
  /\ Forall (runs_only BalanceQuery "secret")
            (trace (snd (fst (executeTask (config_of balance_args "secret")
                                          (PackageName balance_args)
                                          [turn 10 0; turn 10 0] world0)))).
Proof.
  split; [reflexivity|]. split; [reflexivity|].
  exact (proj1 (proj2 (proj2 (accepted_balanceQuery_draws
                                balance_args "secret" [turn 10 0; turn 10 0]
                                0 rng0 [] eq_refl eq_refl)))).
Defined.

(** ** More on saveLogs *)

Lemma substring_0_split (s : string) :
  forall k,
    exists rest,
      s = substring 0 k s ++ rest
      /\ String.length (substring 0 k s) = Nat.min k (String.length s).
Proof.
  induction s as [|c s IH]; intros [|k]; simpl.
  - exists EmptyString. split; reflexivity.
  - exists EmptyString. split; reflexivity.
  - exists (String c s). split; reflexivity.
  - destruct (IH k) as (rest & Hs & Hl). exists rest.
    split; [rewrite <- Hs; reflexivity|rewrite Hl; reflexivity].
Qed.

Lemma concat_app (l1 l2 : list string) :
  String.concat EmptyString (l1 ++ l2)
  = String.concat EmptyString l1 ++ String.concat EmptyString l2.
Proof.
  induction l1 as [|a l1 IH]; [reflexivity|].
  change ((a :: l1) ++ l2)%list with (a :: (l1 ++ l2))%list.
  assert (Hc : forall l, String.concat EmptyString (a :: l)
                         = a ++ String.concat EmptyString l)
    by (intros [|b l]; simpl; [rewrite append_nil_r|]; reflexivity).
  rewrite !Hc, IH, append_assoc. reflexivity.
Qed.

Section MorePersister.
Context `{Library}.

Lemma csv_text_app (l1 l2 : list ExecutionLog) :
  csv_text (l1 ++ l2)
  = csv_text l1
    ++ String.concat EmptyString (map (fun x => csv_record (row x)) l2).
Proof.
  unfold csv_text. rewrite map_app, concat_app, append_assoc. reflexivity.
Qed.

Lemma saveLogs_good (logs : list ExecutionLog) (d : Disk) (fs : FS) :
  create_err d = None ->
  fits (room d) (csv_text logs) = true ->
  fst (saveLogs logs d fs) csvFile = Some (csv_text logs).
Proof.
  intros Hc Hfit. unfold saveLogs. rewrite Hc. cbn [fst].
  unfold fs_put. rewrite String.eqb_refl.
  destruct (saveLogs_writer_spec logs d) as [Hw _]. rewrite Hw.
  unfold accepted. destruct (room d) as [k|]; [|reflexivity].
  unfold fits in Hfit. apply Nat.leb_le in Hfit.
  rewrite substring_0_all by exact Hfit. reflexivity.
Qed.

(** X15.  Flushes of a growing log.  When a log is flushed, grows, and
    is flushed again (both times without failure), the second file is
    the first one followed by the records of the new samples: nothing
    of what was saved changes.  The file of an empty log is the header
    line alone. *)
Theorem flush_extends (l1 l2 : list ExecutionLog) (d1 d2 : Disk) (fs : FS)
  (Hc1 : create_err d1 = None) (Hr1 : fits (room d1) (csv_text l1) = true)
  (Hc2 : create_err d2 = None)
  (Hr2 : fits (room d2) (csv_text (l1 ++ l2)) = true) :
  let fs1 := fst (saveLogs l1 d1 fs) in
  let fs2 := fst (saveLogs (l1 ++ l2) d2 fs1) in
  exists first,
    fs1 csvFile = Some first
    /\ fs2 csvFile
       = Some (first
               ++ String.concat EmptyString
                    (map (fun x => csv_record (row x)) l2))
    /\ fst (saveLogs [] d2 fs1) csvFile
       = Some ("Timestamp,ResponseTime" ++ newline).
Proof.
  cbv zeta. exists (csv_text l1).
  split; [apply saveLogs_good; assumption|].
  split.
  - rewrite saveLogs_good by assumption. rewrite csv_text_app. reflexivity.
  - unfold saveLogs. rewrite Hc2. cbn [fst]. unfold fs_put.
    rewrite String.eqb_refl.
    destruct (saveLogs_writer_spec [] d2) as [Hw _]. rewrite Hw.
    unfold accepted. destruct (room d2) as [k|] eqn:Ek; [|reflexivity].
    rewrite csv_text_app in Hr2. unfold fits in Hr2.
    apply Nat.leb_le in Hr2. rewrite append_length in Hr2.
    assert (Hh : (String.length (csv_text []) <= String.length (csv_text l1))%nat).
    { change l1 with ([] ++ l1)%list. rewrite csv_text_app, append_length. lia. }
    rewrite substring_0_all by lia. reflexivity.
Qed.

(** X16.  A flush that fails leaves the beginning of the file.  When
    the file is created and the disk takes [k] bytes, the file holds the
    first [k] bytes of the text that a flush without failure writes (all
    of it when it is no longer than [k]): the text is the file followed
    by what was lost, which may begin in the middle of a record. *)
Theorem failed_flush_keeps_prefix (logs : list ExecutionLog) (d : Disk)
  (fs : FS) (k : nat)
  (Hc : create_err d = None) (Hk : room d = Some k) :
  exists file lost,
    fst (saveLogs logs d fs) csvFile = Some file
    /\ csv_text logs = file ++ lost
    /\ String.length file = Nat.min k (String.length (csv_text logs))
    /\ failed (saveLogs_writer logs d)
       = (k <? String.length (csv_text logs))%nat.
Proof.
  destruct (saveLogs_writer_spec logs d) as [Hw Hf].
  destruct (substring_0_split (csv_text logs) k) as (lost & Hs & Hl).
  exists (substring 0 k (csv_text logs)), lost.
  split.
  - unfold saveLogs. rewrite Hc, Hw, Hk. cbn [fst accepted]. unfold fs_put.
    rewrite String.eqb_refl. reflexivity.
  - split; [exact Hs|]. split; [exact Hl|].
    rewrite Hf, Hk. unfold fits.
    destruct (Nat.leb_spec (String.length (csv_text logs)) k);
      destruct (Nat.ltb_spec k (String.length (csv_text logs)));
      try reflexivity; lia.
Qed.

End MorePersister.

Lemma flush_extends_witness :
  create_err good_disk = None
  /\ fits (room good_disk) (@csv_text sample_library [mkExecutionLog 100 100])
     = true
  /\ fits (room good_disk) (@csv_text sample_library logs2) = true
  /\ fst (@saveLogs sample_library logs2 good_disk
            (fst (@saveLogs sample_library [mkExecutionLog 100 100]
                            good_disk no_files))) csvFile
     = Some ("Timestamp,ResponseTime" ++ newline ++ "100,100" ++ newline
             ++ "250,150" ++ newline).
Proof.
  split; [reflexivity|]. split; [reflexivity|]. split; [reflexivity|].
  destruct (@flush_extends sample_library [mkExecutionLog 100 100]
              [mkExecutionLog 250 150] good_disk good_disk no_files
              eq_refl eq_refl eq_refl eq_refl) as (first & H1 & H2 & _).
  change ([mkExecutionLog 100 100] ++ [mkExecutionLog 250 150])%list
    with logs2 in H2.
  rewrite H2. vm_compute in H1. inversion H1; subst first. reflexivity.
Defined.

Lemma failed_flush_keeps_prefix_witness :
  create_err full_disk = None
  /\ room full_disk = Some 10%nat
  /\ exists file lost,
       fst (@saveLogs sample_library logs2 full_disk no_files) csvFile
       = Some file
       /\ @csv_text sample_library logs2 = file ++ lost
       /\ String.length file = 10%nat.
Proof.
  split; [reflexivity|]. split; [reflexivity|].
  destruct (@failed_flush_keeps_prefix sample_library logs2 full_disk no_files
              10%nat eq_refl eq_refl) as (file & lost & H1 & H2 & H3 & _).
  exists file, lost. split; [exact H1|]. split; [exact H2|exact H3].
Defined.

(** ** More on main *)

Lemma spawn_schedule_runs (n : Z) (j : nat) :
  forall k,
    0 <= k -> k + Z.of_nat j <= n ->
    pool_run (spawn_schedule j) (mkPool n k AtSend k k 0 0)
    = Some (mkPool n (k + Z.of_nat j) AtSend (k + Z.of_nat j)
                   (k + Z.of_nat j) 0 0).
Proof.
  induction j as [|j IH]; intros k Hk Hn.
  - cbn. rewrite Z.add_0_r. reflexivity.
  - cbn [spawn_schedule pool_run]. unfold pool_step at 1.
    cbn [main_pc sem_len sem_cap wg in_loop leaving finishing].
    destruct (Z.ltb_spec k n); [|lia].
    cbn [pool_step main_pc sem_len sem_cap wg in_loop leaving finishing].
    rewrite IH by lia.
    replace (k + 1 + Z.of_nat j) with (k + Z.of_nat (S j)) by lia.
    reflexivity.
Qed.

(** X17.  [main] starts exactly [maxThreads] workers.  With arguments
    that [validateArgs] accepts, a standard input whose [Stat] succeeds
    and [maxThreads >= 0], [main] reaches its loop with an empty
    semaphore of that capacity; starting one worker after the other it
    gets [maxThreads] of them running, each with the arguments of the
    command line and the secret, and is then held at its next send. *)
Theorem main_starts_all_workers (args : CommandLineArgs) (stdin : StdinFile)
  (Hok : validateArgs args = Accepted)
  (Hstat : stat_err stdin = None)
  (Hn : 0 <= MaxThreads args) :
  exists pw full,
    read_password stdin = inr pw
    /\ main_start args stdin
       = inr (Ok (config_of args pw, PackageName args,
                  mkPool (MaxThreads args) 0 AtSend 0 0 0 0))
    /\ pool_run (spawn_schedule (Z.to_nat (MaxThreads args)))
                (mkPool (MaxThreads args) 0 AtSend 0 0 0 0)
       = Some full
    /\ in_loop full = MaxThreads args
    /\ wg full = MaxThreads args
    /\ pool_step full PSend = None
    /\ pool_step full PHandoff = None.
Proof.
  assert (Hpw : exists pw, read_password stdin = inr pw).
  { unfold read_password. rewrite Hstat.
    destruct (negb (char_device stdin)); [|eexists; reflexivity].
    destruct (Scan (content stdin)); eexists; reflexivity. }
  destruct Hpw as (pw & Hpw).
  exists pw, (mkPool (MaxThreads args) (MaxThreads args) AtSend
                     (MaxThreads args) (MaxThreads args) 0 0).
  split; [exact Hpw|]. split.
  { unfold main_start. rewrite Hok, Hpw. unfold pool_init.
    destruct (Z.ltb_spec (MaxThreads args) 0); [lia|]. reflexivity. }
  split.
  { rewrite (spawn_schedule_runs (MaxThreads args)) by lia.
    rewrite Z2Nat.id by lia. reflexivity. }
  split; [reflexivity|]. split; [reflexivity|].
  unfold pool_step. cbn [main_pc sem_len sem_cap leaving].
  rewrite Z.ltb_irrefl. rewrite andb_false_r. split; reflexivity.
Qed.

Lemma main_starts_all_workers_witness :
  validateArgs readme_args = Accepted
  /\ stat_err (pipe "secret") = None
  /\ 0 <= MaxThreads readme_args
  /\ exists pw full,
       main_start readme_args (pipe "secret")
       = inr (Ok (config_of readme_args pw, PackageName readme_args,
                  mkPool (MaxThreads readme_args) 0 AtSend 0 0 0 0))
       /\ in_loop full = MaxThreads readme_args.
Proof.
  assert (Hn : 0 <= MaxThreads readme_args) by (intro H; discriminate H).
  split; [reflexivity|]. split; [reflexivity|]. split; [exact Hn|].
  destruct (main_starts_all_workers readme_args (pipe "secret")
              eq_refl eq_refl Hn)
    as (pw & full & _ & Hmain & _ & Hin & _).
  exists pw, full. split; assumption.
Defined.

(** X18.  How [main] ends before it starts a worker.  Arguments that
    [validateArgs] refuses end the process with its exit status before
    standard input is looked at; accepted arguments with a failing
    [Stat] end it with status 1; and accepted arguments with a negative
    [maxThreads], which no check refuses, get as far as the secret and
    then panic in [make]. *)
Theorem main_stops_early (args : CommandLineArgs) (stdin : StdinFile) :
  (forall code msg,
      validateArgs args = Exit code msg ->
      main_start args stdin = inl (Exit code msg))
  /\ (forall e,
        validateArgs args = Accepted -> stat_err stdin = Some e ->
        main_start args stdin
        = inl (Exit 1 ("Error checking stdin: " ++ e)))
  /\ (validateArgs args = Accepted -> stat_err stdin = None ->
      MaxThreads args < 0 ->
      main_start args stdin = inr (Panic "makechan: size out of range")).
Proof.
  unfold main_start. split; [|split].
  - intros code msg Hv. rewrite Hv. reflexivity.
  - intros e Hv He. rewrite Hv. unfold read_password. rewrite He. reflexivity.
  - intros Hv Hs Hn. rewrite Hv. unfold read_password. rewrite Hs.
    unfold pool_init. destruct (Z.ltb_spec (MaxThreads args) 0); [|lia].
    destruct (negb (char_device stdin)); [|reflexivity].
    destruct (Scan (content stdin)); reflexivity.
Qed.

Lemma main_stops_early_witness :
  validateArgs default_args
  = Exit 1 "Error: package argument must be specified in call mode."
  /\ main_start default_args (pipe "secret")
     = inl (Exit 1 "Error: package argument must be specified in call mode.").
Proof.
  split; [reflexivity|].
  exact (proj1 (main_stops_early default_args (pipe "secret")) _ _ eq_refl).
Defined.

Lemma wg_inv_step (p p' : Pool) (a : PoolAction) :
  pool_step p a = Some p' -> wg_inv p -> wg_inv p'.
Proof.
  unfold wg_inv, pool_step.
  destruct a, (main_pc p) eqn:Epc; try discriminate;
    repeat match goal with
           | |- context [if ?b then _ else _] => destruct b eqn:?
           end; try discriminate;
    intros E; inversion E; subst; clear E; cbn; rewrite ?Epc; lia.
Qed.

Lemma wg_inv_run (sched : list PoolAction) :
  forall p p', pool_run sched p = Some p' -> wg_inv p -> wg_inv p'.
Proof.
  induction sched as [|a rest IH]; intros p p' Hrun Hinv; simpl in Hrun.
  - inversion Hrun; subst. exact Hinv.
  - destruct (pool_step p a) as [p1|] eqn:E; [|discriminate].
    eapply IH; [exact Hrun|]. eapply wg_inv_step; eauto.
Qed.

(** X19.  The counter of the wait group.  Along every schedule the
    counter of [wg] equals the number of goroutines that were announced
    by [wg.Add(1)] and have not yet called [wg.Done()]: those in
    [executeTask], those in the deferred function, and the one [main]
    is about to start.  It is therefore never negative: [wg.Done] is
    never called once too often. *)
Theorem wg_counts_goroutines (maxThreads : Z) (sched : list PoolAction)
  (p0 p : Pool)
  (Hinit : pool_init maxThreads = Ok p0)
  (Hrun : pool_run sched p0 = Some p) :
  wg p = in_loop p + leaving p + finishing p
         + match main_pc p with AtGo => 1 | _ => 0 end
  /\ 0 <= wg p.
Proof.
  destruct (pool_inv_init _ _ Hinit) as [Hinv0 _].
  destruct (pool_run_inv _ _ _ Hrun Hinv0) as [(_ & _ & Hi & Hl & Hf) _].
  assert (Hw : wg_inv p).
  { eapply wg_inv_run; [exact Hrun|].
    unfold pool_init in Hinit. destruct (maxThreads <? 0); [discriminate|].
    inversion Hinit; subst. reflexivity. }
  unfold wg_inv in Hw. split; [exact Hw|].
  rewrite Hw. destruct (main_pc p); lia.
Qed.

Lemma wg_counts_goroutines_witness :
  pool_init 2 = Ok (mkPool 2 0 AtSend 0 0 0 0)
  /\ pool_run [PSend; PAdd; PGo; PReturn; PRecv; PDone]
              (mkPool 2 0 AtSend 0 0 0 0)
     = Some (mkPool 2 0 AtSend 0 0 0 0)
  /\ 0 <= wg (mkPool 2 0 AtSend 0 0 0 0).
Proof.
  split; [reflexivity|]. split; [reflexivity|].
  exact (proj2 (wg_counts_goroutines 2 [PSend; PAdd; PGo; PReturn; PRecv; PDone]
                  (mkPool 2 0 AtSend 0 0 0 0) (mkPool 2 0 AtSend 0 0 0 0)
                  eq_refl eq_refl)).
Defined.

(** ** More on the shutdown *)

Section MoreShutdown.
Context `{Library}.

Lemma process_step_cases (p p' : Process) (a : Action) :
  process_step p a = Some p' ->
  handler p <> Exited
  /\ (signalChan p <= 1 -> signalChan p' <= 1)%nat
  /\ (exists more, shared_logs p' = (shared_logs p ++ more)%list
                   /\ List.length more = if is_WAppend a then 1%nat else O)
  /\ (flushes p' = flushes p
      \/ flushes p' = (flushes p ++ [mkFlush (shared_logs p) (logMutex p)])%list
         /\ shared_logs p' = shared_logs p).
Proof.
  unfold process_step, alive.
  destruct (handler p) eqn:Eh; cbn [negb]; try discriminate;
    destruct a; try discriminate;
    repeat match goal with
           | |- context [match ?x with _ => _ end] => destruct x eqn:?
           end; try discriminate;
    intros E; inversion E; subst; clear E;
    cbn [handler signalChan shared_logs flushes is_WAppend];
    (split; [discriminate|]);
    (split; [intros Hle;
             repeat match goal with
                    | Hb : (_ <? _)%nat = true |- _ => apply Nat.ltb_lt in Hb
                    | Hb : (_ <? _)%nat = false |- _ => apply Nat.ltb_ge in Hb
                    end; lia|]);
    (split; [first [exists []; rewrite app_nil_r; split; reflexivity
                   | eexists; split; reflexivity]|]);
    first [left; reflexivity | right; split; reflexivity].
Qed.


Lemma mutex_inv_step (p p' : Process) (a : Action) :
  process_step p a = Some p' -> mutex_inv p -> mutex_inv p'.
Proof.
  intros Hs Hinv. unfold process_step, alive in Hs.
  destruct (handler p) eqn:Eh; cbn [negb] in Hs; try discriminate;
    destruct a as [i x|i|i| | | |d|]; try discriminate.
  all: try (destruct (logMutex p) as [h|] eqn:Em; try discriminate;
            destruct (appending p i) as [|y|] eqn:Ea; try discriminate;
            inversion Hs; subst; clear Hs;
            intros j; cbn [appending logMutex]; unfold set_pc;
            destruct (Nat.eqb_spec j i) as [->|Hne];
            [split; [reflexivity|discriminate]|];
            split; [intros Hj; apply Hinv in Hj; congruence
                   |intros Hj; congruence]).
  all: try (destruct (appending p i) as [|y|] eqn:Ea; try discriminate;
            inversion Hs; subst; clear Hs;
            assert (Hi : logMutex p = Some i)
              by (apply Hinv; rewrite Ea; discriminate);
            intros j; cbn [appending logMutex]; unfold set_pc;
            destruct (Nat.eqb_spec j i) as [->|Hne];
            [split; [intros; first [exact Hi|congruence]
                    |intros; first [discriminate|congruence]]|];
            split; [intros Hj; apply Hinv in Hj; congruence
                   |intros Hj; first [discriminate Hj|apply Hinv; exact Hj]]).
  all: try (inversion Hs; subst; clear Hs; exact Hinv).
  all: try (destruct (signalChan p); try discriminate;
            inversion Hs; subst; clear Hs; exact Hinv).
  all: try (destruct (saveLogs (shared_logs p) d (files p));
            inversion Hs; subst; clear Hs; exact Hinv).
Qed.

Lemma process_run_ind (P : Process -> Prop) :
  (forall p p' a, process_step p a = Some p' -> P p -> P p') ->
  forall sched p p', process_run sched p = Some p' -> P p -> P p'.
Proof.
  intros Hstep. induction sched as [|a rest IH]; intros p p' Hrun HP;
    simpl in Hrun.
  - inversion Hrun; subst. exact HP.
  - destruct (process_step p a) as [p1|] eqn:E; [|discriminate].
    eapply IH; [exact Hrun|]. eapply Hstep; eauto.
Qed.

Lemma process_run_appends (sched : list Action) :
  forall p p',
    process_run sched p = Some p' ->
    List.length (shared_logs p')
    = (List.length (shared_logs p) + List.length (filter is_WAppend sched))%nat.
Proof.
  induction sched as [|a rest IH]; intros p p' Hrun; simpl in Hrun.
  - inversion Hrun; subst. cbn. lia.
  - destruct (process_step p a) as [p1|] eqn:E; [|discriminate].
    rewrite (IH _ _ Hrun).
    destruct (process_step_cases _ _ _ E) as (_ & _ & (more & Hl & Hlen) & _).
    rewrite Hl, length_app, Hlen. cbn [filter].
    destruct (is_WAppend a); cbn [List.length]; lia.
Qed.


(** X21.  The appends exclude each other.  Along every schedule a worker
    is between [logMutex.Lock()] and [logMutex.Unlock()] exactly when it
    holds the mutex, so no two workers are there together; and the log
    holds one sample per append that was carried out, no more and no
    fewer. *)
Theorem appends_exclusive (fs : FS) (sched : list Action) (p : Process)
  (Hrun : process_run sched (process_init fs) = Some p) :
  (forall i, appending p i <> Outside <-> logMutex p = Some i)
  /\ (forall i j,
        appending p i <> Outside -> appending p j <> Outside -> i = j)
  /\ List.length (shared_logs p) = List.length (filter is_WAppend sched).
Proof.
  assert (Hm : mutex_inv p).
  { apply (process_run_ind mutex_inv mutex_inv_step _ _ _ Hrun).
    intros i. cbn. split; [intros Hc; congruence|discriminate]. }
  split; [exact Hm|]. split.
  - intros i j Hi Hj. apply Hm in Hi. apply Hm in Hj. congruence.
  - rewrite (process_run_appends _ _ _ Hrun). reflexivity.
Qed.

End MoreShutdown.


Lemma appends_exclusive_witness :
  exists p,
    @process_run sample_library [WLock 0 sample_x; WAppend 0; WUnlock 0;
                                 WLock 1 sample_x]
                 (process_init no_files) = Some p
    /\ List.length (shared_logs p) = 1%nat.
Proof.
  destruct (@process_run sample_library [WLock 0 sample_x; WAppend 0; WUnlock 0;
                                         WLock 1 sample_x]
                         (process_init no_files)) as [p|] eqn:E;
    [|vm_compute in E; discriminate E].
  exists p. split; [reflexivity|].
  exact (proj2 (proj2 (@appends_exclusive sample_library no_files _ p E))).
Defined.
